(** * Verification of the e-mail sending core (emailService.ts)

    A shallow embedding of the template renderer, the recipient formatter,
    the transport factory, the single-send operation and the bulk-send
    orchestrator, together with the properties stated about them.

    Conventions of the embedding:
    - a JavaScript string is a [string]; every [ascii] stands for one code
      unit in the range 0..255;
    - an optional field ([name?: string]) is an [option]; [None] is
      [undefined];
    - a [number] that the code uses as a count or an index is a [Z]
      (fractions, NaN and the infinities are outside the model);
    - an [async] function is a computation in the monad [M] below: it
      threads the outside world and the trace of observable events, and it
      ends with a value, with a thrown exception, or by running out of
      fuel (the only loop of the file is the batching loop). *)

From Stdlib Require Import ZArith List Bool Ascii String Lia.
From stdpp Require Import base strings gmap list pretty.

Local Open Scope string_scope.
Local Open Scope Z_scope.

(* Let [simpl] unfold string concatenation on a constructor. *)
Local Arguments String.append !s1 s2 /.

(** ** JavaScript strings *)

Module JS.

(** [if (s)] on a string: the empty string is falsy. *)
Definition truthy (s : string) : bool :=
  match s with
  | EmptyString => false
  | String _ _ => true
  end.

(** [if (x)] on an optional string: the string when it passes the test;
    [undefined] and [''] are falsy. *)
Definition as_truthy (x : option string) : option string :=
  match x with
  | Some s => if truthy s then Some s else None
  | None => None
  end.

(** [x || d] on an optional string. *)
Definition or_else (x : option string) (d : string) : string :=
  match x with
  | Some s => if truthy s then s else d
  | None => d
  end.

(** White space of [String.prototype.trim], restricted to the code units
    the model has: TAB, LF, VT, FF, CR, SPACE and NBSP. *)
Definition is_whitespace (c : ascii) : bool :=
  let n := nat_of_ascii c in
  (((9 <=? n) && (n <=? 13)) || (n =? 32) || (n =? 160))%nat.

Fixpoint trim_start (s : string) : string :=
  match s with
  | String c t => if is_whitespace c then trim_start t else s
  | EmptyString => EmptyString
  end.

Definition trim_end (s : string) : string :=
  String.rev (trim_start (String.rev s)).

Definition trim (s : string) : string := trim_end (trim_start s).

(** [Array.prototype.slice(start, end)] with its treatment of negative and
    out-of-range indices. *)
Definition clamp_index (len k : Z) : Z :=
  if k <? 0 then Z.max (len + k) 0 else Z.min k len.

Definition slice {A} (l : list A) (start stop : Z) : list A :=
  let len := Z.of_nat (length l) in
  let from := clamp_index len start in
  let to := clamp_index len stop in
  firstn (Z.to_nat (to - from)) (skipn (Z.to_nat from) l).

(** [Array.prototype.find]. *)
Definition find {A} (p : A -> bool) (l : list A) : option A := List.find p l.

End JS.

(** ** JavaScript values held by substitution data *)

Inductive JSValue : Type :=
  | JUndefined
  | JNull
  | JBool (b : bool)
  | JNum (z : Z)
  | JStr (s : string)
  | JObject
  | JNative (name : string).

(** [ToString], applied by [String.prototype.replace] to what the replacer
    function returns. *)
Definition js_to_string (v : JSValue) : string :=
  match v with
  | JUndefined => "undefined"
  | JNull => "null"
  | JBool true => "true"
  | JBool false => "false"
  | JNum z => pretty z
  | JStr s => s
  | JObject => "[object Object]"
  | JNative name => "function " ++ name ++ "() { [native code] }"
  end.

Definition is_undefined (v : JSValue) : bool :=
  match v with
  | JUndefined => true
  | _ => false
  end.

(** Substitution data is a plain object ([Record<string, any>]): its own
    properties, with [Object.prototype] behind them. *)
Abbreviation TemplateData := (gmap string JSValue).

Definition object_prototype_methods : list string :=
  [ "toString"; "toLocaleString"; "valueOf"; "hasOwnProperty";
    "isPrototypeOf"; "propertyIsEnumerable"; "__defineGetter__";
    "__defineSetter__"; "__lookupGetter__"; "__lookupSetter__" ].

(** What [Object.prototype] answers for a property name. *)
Definition object_prototype_get (key : string) : JSValue :=
  if String.eqb key "constructor" then JNative "Object"
  else if String.eqb key "__proto__" then JObject
  else if existsb (String.eqb key) object_prototype_methods then JNative key
  else JUndefined.

(** [data[key]]: the own property when there is one, the inherited one
    otherwise. *)
Definition js_get (data : TemplateData) (key : string) : JSValue :=
  match data !! key with
  | Some v => v
  | None => object_prototype_get key
  end.

(** ** Template Renderer *)

(** The longest prefix free of a closing brace, and what follows it: the
    greedy [[^}]+] of the pattern.  Giving characters back never helps the
    pattern, since the character after a shorter prefix is not a closing
    brace. *)
Fixpoint span_key (s : string) : string * string :=
  match s with
  | String c t =>
      if Ascii.eqb c "}" then (EmptyString, s)
      else let '(k, r) := span_key t in (String c k, r)
  | EmptyString => (EmptyString, EmptyString)
  end.

(** [s.startsWith(p)], with what follows the prefix. *)
Fixpoint strip_prefix (p s : string) : option string :=
  match p with
  | EmptyString => Some s
  | String c p' =>
      match s with
      | String d s' => if Ascii.eqb c d then strip_prefix p' s' else None
      | EmptyString => None
      end
  end.

(** A match of [/\{\{([^}]+)\}\}/] anchored at the start of [s]: the
    matched text, the captured key and the rest of the string. *)
Definition match_token (s : string) : option (string * string * string) :=
  match strip_prefix "{{" s with
  | Some t =>
      let '(key, r) := span_key t in
      if JS.truthy key then
        match strip_prefix "}}" r with
        | Some rest => Some ("{{" ++ key ++ "}}", key, rest)
        | None => None
        end
      else None
  | None => None
  end.

(** The replacer function of [processTemplate]. *)
Definition replacer (data : TemplateData) (matched key : string) : string :=
  let value := js_get data (JS.trim key) in
  if is_undefined value then matched else js_to_string value.

(** [template.replace(re, replacer)] with the global flag: the leftmost
    match is replaced and the search resumes after it; the text put in is
    not looked at again. *)
Fixpoint replace_all (fuel : nat) (data : TemplateData) (s : string) : string :=
  match fuel with
  | O => s
  | S fuel' =>
      match s with
      | EmptyString => EmptyString
      | String c t =>
          match match_token s with
          | Some (matched, key, rest) =>
              replacer data matched key ++ replace_all fuel' data rest
          | None => String c (replace_all fuel' data t)
          end
      end
  end.

Definition processTemplate (template : string) (data : TemplateData) : string :=
  replace_all (String.length template) data template.

(** ** Recipient Formatter *)

Record EmailRecipient : Type := mkRecipient {
  email : string;
  name : option string
}.

(** The double-quote character of the template literals. *)
Definition dquote : string := String "034"%char EmptyString.

(** The template literal ["${name}" <${email}>]. *)
Definition quoted_address (n e : string) : string :=
  dquote ++ n ++ dquote ++ " <" ++ e ++ ">".

Definition formatRecipient (recipient : EmailRecipient) : string :=
  match name recipient with
  | Some n =>
      if JS.truthy n then quoted_address n (email recipient)
      else email recipient
  | None => email recipient
  end.

(** A value of type [T | T[]]. *)
Inductive OneOrMany (A : Type) : Type :=
  | One (x : A)
  | Many (xs : list A).
Arguments One {A} x.
Arguments Many {A} xs.

Definition formatRecipients (recipients : OneOrMany EmailRecipient)
  : OneOrMany string :=
  match recipients with
  | Many xs => Many (map formatRecipient xs)
  | One x => One (formatRecipient x)
  end.

(** [Array.isArray(x) ? x : [x]]. *)
Definition as_array {A} (x : OneOrMany A) : list A :=
  match x with
  | Many xs => xs
  | One x => [x]
  end.

(** ** Data model *)

(** Modelled from the spec: the interface [SmtpServerConfig] of config.ts,
    which is not among the sources; the fields are those of the spec's
    TransportConfig, named as emailService.ts reads them ([id], [host],
    [port], [secure], [auth.user], [auth.pass]). *)
Record SmtpServerConfig : Type := mkSmtpServerConfig {
  cfg_id : string;
  cfg_name : string;
  cfg_host : string;
  cfg_port : Z;
  cfg_secure : bool;
  cfg_auth_user : string;
  cfg_auth_pass : string;
  cfg_isDefault : bool
}.

Record DynamicSmtpConfig : Type := mkDynamicSmtpConfig {
  host : string;
  port : Z;
  secure : bool;
  user : string;
  pass : string
}.

(** A value of type [SmtpServerConfig | DynamicSmtpConfig]; the tests
    ['auth' in smtpConfig] and ['id' in smtpConfig] tell the two apart. *)
Inductive AnySmtpConfig : Type :=
  | Stored (c : SmtpServerConfig)
  | Dynamic (c : DynamicSmtpConfig).

Definition any_host (c : AnySmtpConfig) : string :=
  match c with Stored c => cfg_host c | Dynamic c => host c end.
Definition any_port (c : AnySmtpConfig) : Z :=
  match c with Stored c => cfg_port c | Dynamic c => port c end.
Definition any_secure (c : AnySmtpConfig) : bool :=
  match c with Stored c => cfg_secure c | Dynamic c => secure c end.
(** ['auth' in smtpConfig ? smtpConfig.auth.user : smtpConfig.user] *)
Definition any_user (c : AnySmtpConfig) : string :=
  match c with Stored c => cfg_auth_user c | Dynamic c => user c end.
Definition any_pass (c : AnySmtpConfig) : string :=
  match c with Stored c => cfg_auth_pass c | Dynamic c => pass c end.

(** The options object handed to [nodemailer.createTransport]; the
    transport that call returns is identified with it. *)
Record Transport : Type := mkTransport {
  t_host : string;
  t_port : Z;
  t_secure : bool;
  t_auth_user : string;
  t_auth_pass : string
}.

(** Modelled from the spec: the interface [EmailTemplate] of config.ts,
    which is not among the sources (the spec's TemplateDefinition: id,
    subject pattern, body pattern, default flag). *)
Record EmailTemplate : Type := mkEmailTemplate {
  tpl_id : string;
  tpl_subject : string;
  tpl_body : string;
  tpl_isDefault : bool
}.

(** Modelled from the spec: the interface [EmailLogEntry] of config.ts,
    which is not among the sources; the fields are those of the two object
    literals of [sendEmail]. *)
Record EmailLogEntry : Type := mkEmailLogEntry {
  log_timestamp : string;
  log_smtpConfig : string;
  log_templateId : option string;
  log_recipient : string;
  log_subject : string;
  log_success : bool;
  log_message : string
}.

Record Image : Type := mkImage {
  content : string;
  filename : string;
  cid : option string
}.

Record EmailData : Type := mkEmailData {
  to : OneOrMany EmailRecipient;
  subject : string;
  body : string;
  from : option EmailRecipient;
  cc : option (list EmailRecipient);
  bcc : option (list EmailRecipient);
  templateId : option string;
  templateData : option TemplateData;
  smtpConfig : option DynamicSmtpConfig;
  images : option (list Image)
}.

Record BulkEmailData : Type := mkBulkEmailData {
  recipients : list EmailRecipient;
  bulk_subject : string;
  bulk_body : string;
  bulk_from : option EmailRecipient;
  bulk_cc : option (list EmailRecipient);
  bulk_bcc : option (list EmailRecipient);
  bulk_templateId : option string;
  bulk_templateData : option TemplateData;
  batchSize : option Z;
  delayBetweenBatches : option Z;
  bulk_smtpConfig : option DynamicSmtpConfig
}.

Record MailOptions : Type := mkMailOptions {
  mail_from : string;
  mail_to : OneOrMany string;
  mail_subject : string;
  mail_html : string;
  mail_cc : option (OneOrMany string);
  mail_bcc : option (OneOrMany string)
}.

(** The result of [sendEmail]. *)
Record SendResult : Type := mkSendResult {
  success : bool;
  message : option string
}.

Record Failure : Type := mkFailure {
  failure_email : string;
  failure_error : string
}.

(** The result of [sendBulkEmails]. *)
Record BulkResult : Type := mkBulkResult {
  bulk_success : bool;
  totalSent : Z;
  totalFailed : Z;
  failures : option (list Failure);
  bulk_message : option string
}.

(** ** Exceptions, events and the monad of asynchronous code *)

(** A thrown value: an [Error] (with its [name] and [message]) or anything
    else, kept as its string form. *)
Inductive Exn : Type :=
  | JsError (ename emessage : string)
  | JsThrown (text : string).

(** [error instanceof Error ? error.message : fallback] *)
Definition error_message (e : Exn) (fallback : string) : string :=
  match e with
  | JsError _ m => m
  | JsThrown _ => fallback
  end.

(** The string form of a thrown value inside a template literal. *)
Definition error_text (e : Exn) : string :=
  match e with
  | JsError n m => if JS.truthy m then n ++ ": " ++ m else n
  | JsThrown t => t
  end.

(** What an observer of a run can see. [EvLogEmailActivity e ok] is one
    call of [logEmailActivity] on [e], with whether it returned; [EvBatch b]
    marks the slice the batching loop has just taken. *)
Inductive Event : Type :=
  | EvConsoleLog (text : string)
  | EvConsoleWarn (text : string)
  | EvLogToFile (text : string)
  | EvSendMail (t : Transport) (m : MailOptions)
  | EvLogEmailActivity (e : EmailLogEntry) (written : bool)
  | EvBatch (batch : list EmailRecipient)
  | EvDelay (ms : Z).

Inductive Outcome (A : Type) : Type :=
  | Ok (a : A)
  | Throw (e : Exn)
  | OutOfFuel.
Arguments Ok {A} a.
Arguments Throw {A} e.
Arguments OutOfFuel {A}.

Record State (W : Type) : Type := mkState {
  world : W;
  trace : list Event
}.
Arguments mkState {W} world trace.
Arguments world {W} s.
Arguments trace {W} s.

Definition M (W A : Type) : Type := State W -> Outcome A * State W.

(** What a collaborator answers: a value or a thrown exception, and the
    world after the call. *)
Definition Answer (W A : Type) : Type := W -> (Exn + A) * W.

(** The collaborators of emailService.ts: the functions of config.ts (not
    among the sources), the [sendMail] of the transport, and the clock.
    [saveAndProcessImages] writes the images of a request to disk under
    random names and rewrites the [src] attributes of the body: it is kept
    as a collaborator too, from the body and the images to the new body.
    Every one of them may throw, and every one of them comes back. *)
Record Env (W : Type) : Type := mkEnv {
  getSmtpConfigs : Answer W (list SmtpServerConfig);
  getDefaultSmtpConfig : Answer W (option SmtpServerConfig);
  getEmailTemplates : Answer W (list EmailTemplate);
  getDefaultEmailTemplate : Answer W (option EmailTemplate);
  logEmailActivity : EmailLogEntry -> Answer W unit;
  sendMail : Transport -> MailOptions -> Answer W string;
  saveAndProcessImages : string -> list Image -> Answer W string;
  now : W -> string
}.
Arguments getSmtpConfigs {W} e.
Arguments getDefaultSmtpConfig {W} e.
Arguments getEmailTemplates {W} e.
Arguments getDefaultEmailTemplate {W} e.
Arguments logEmailActivity {W} e.
Arguments sendMail {W} e.
Arguments saveAndProcessImages {W} e.
Arguments now {W} e.

Section Monad.
Context {W : Type}.

Definition ret {A} (a : A) : M W A := fun s => (Ok a, s).

Definition bind {A B} (m : M W A) (k : A -> M W B) : M W B :=
  fun s =>
    match m s with
    | (Ok a, s') => k a s'
    | (Throw e, s') => (Throw e, s')
    | (OutOfFuel, s') => (OutOfFuel, s')
    end.

Definition throw {A} (e : Exn) : M W A := fun s => (Throw e, s).

Definition out_of_fuel {A} : M W A := fun s => (OutOfFuel, s).

(** [try { m } catch (error) { handler error }] *)
Definition try_catch {A} (m : M W A) (handler : Exn -> M W A) : M W A :=
  fun s =>
    match m s with
    | (Throw e, s') => handler e s'
    | r => r
    end.

Definition emit (ev : Event) : M W unit :=
  fun s => (Ok tt, mkState (world s) (trace s ++ [ev])).

(** [await c()] for a collaborator [c]. *)
Definition call {A} (c : Answer W A) : M W A :=
  fun s =>
    match c (world s) with
    | (inr a, w') => (Ok a, mkState w' (trace s))
    | (inl e, w') => (Throw e, mkState w' (trace s))
    end.

(** [for (const x of xs) { await f(x) }] *)
Fixpoint for_each {A} (xs : list A) (f : A -> M W unit) : M W unit :=
  match xs with
  | [] => ret tt
  | x :: rest => bind (f x) (fun _ => for_each rest f)
  end.

(** A loop over [xs] that carries the variables its body updates. *)
Fixpoint fold_each {A S} (xs : list A) (f : S -> A -> M W S) (acc : S)
  : M W S :=
  match xs with
  | [] => ret acc
  | x :: rest => bind (f acc x) (fold_each rest f)
  end.
End Monad.

Notation "x <- m ;; k" := (bind m (fun x => k))
  (at level 100, m at next level, right associativity, only parsing).
Notation "m ;;; k" := (bind m (fun _ => k))
  (at level 100, right associativity, only parsing).

(** ** The functions of emailService.ts *)

Section EmailService.
Context {W : Type} (env : Env W).

Definition console_log (text : string) : M W unit := emit (EvConsoleLog text).
Definition console_warn (text : string) : M W unit := emit (EvConsoleWarn text).

(** [logToFile] of index.ts appends to a file inside a [try] whose
    [catch] is empty: it never throws. *)
Definition logToFile (text : string) : M W unit := emit (EvLogToFile text).

(** [await logEmailActivity(entry)], recorded in the trace. *)
Definition log_activity (entry : EmailLogEntry) : M W unit :=
  fun s =>
    match logEmailActivity env entry (world s) with
    | (inr _, w') =>
        (Ok tt, mkState w' (trace s ++ [EvLogEmailActivity entry true]))
    | (inl e, w') =>
        (Throw e, mkState w' (trace s ++ [EvLogEmailActivity entry false]))
    end.

(** [await transport.sendMail(mailOptions)], recorded in the trace. *)
Definition deliver (t : Transport) (m : MailOptions) : M W string :=
  emit (EvSendMail t m) ;;; call (sendMail env t m).

(** [new Date().toISOString()] *)
Definition timestamp : M W string := fun s => (Ok (now env (world s)), s).

Definition nodemailer_createTransport (c : AnySmtpConfig) : Transport :=
  {| t_host := any_host c;
     t_port := any_port c;
     t_secure := any_secure c;
     t_auth_user := any_user c;
     t_auth_pass := any_pass c |}.

(** Reading [smtpConfig.host] when [smtpConfig] is [undefined]. *)
Definition undefined_host_error : Exn :=
  JsError "TypeError" "Cannot read properties of undefined (reading 'host')".

Definition createTransport (smtpConfigId : option string)
    (dynamicConfig : option DynamicSmtpConfig) : M W Transport :=
  smtpConfig <-
    match dynamicConfig with
    | Some dc =>
        console_log "Using dynamic SMTP config from request" ;;;
        ret (Some (Dynamic dc))
    | None =>
        match JS.as_truthy smtpConfigId with
        | Some id =>
            configs <- call (getSmtpConfigs env) ;;
            match JS.find (fun c => String.eqb (cfg_id c) id) configs with
            | None =>
                throw (JsError "Error"
                         ("SMTP configuration with ID " ++ id ++ " not found"))
            | Some config =>
                console_log ("Using stored SMTP config: " ++ id) ;;;
                ret (Some (Stored config))
            end
        | None =>
            config <- call (getDefaultSmtpConfig env) ;;
            console_log "Using default SMTP config" ;;;
            ret (option_map Stored config)
        end
    end ;;
  match smtpConfig with
  | None => throw undefined_host_error
  | Some c =>
      console_log ("Creating transport for: " ++ any_host c ++ ":"
                     ++ pretty (any_port c)) ;;;
      ret (nodemailer_createTransport c)
  end.

Definition generateEmailContent (templateId : option string)
    (templateData : option TemplateData) (subject body : string)
  : M W (string * string) :=
  match JS.as_truthy templateId with
  | None => ret (subject, body)
  | Some id =>
      templates <- call (getEmailTemplates env) ;;
      template <-
        (if String.eqb id "default" then call (getDefaultEmailTemplate env)
         else ret (JS.find (fun t => String.eqb (tpl_id t) id) templates)) ;;
      match template with
      | None =>
          console_warn ("Template with ID " ++ id
                          ++ " not found. Using provided subject and body.") ;;;
          ret (subject, body)
      | Some t =>
          let data := default ∅ templateData in
          ret (processTemplate (tpl_subject t) data,
               processTemplate (tpl_body t) data)
      end
  end.

Definition config_not_found : SendResult :=
  {| success := false; message := Some "SMTP configuration not found" |}.

(** ['id' in smtpConfig ? smtpConfig.id : 'dynamic'] *)
Definition config_label (c : AnySmtpConfig) : string :=
  match c with Stored c => cfg_id c | Dynamic _ => "dynamic" end.

(** What [sendEmail] has in hand when it reaches [transport.sendMail]. *)
Record Prepared : Type := mkPrepared {
  p_transport : Transport;
  p_smtpConfig : AnySmtpConfig;
  p_subject : string;
  p_mailOptions : MailOptions
}.

(** The second look at the configuration, which [sendEmail] takes for the
    default sender and the log entries; [inl r] is an early [return r]. *)
Definition resolve_smtpConfig (data : EmailData) (smtpConfigId : option string)
  : M W (SendResult + option AnySmtpConfig) :=
  match smtpConfig data with
  | Some dc => ret (inr (Some (Dynamic dc)))
  | None =>
      match JS.as_truthy smtpConfigId with
      | Some id =>
          configs <- call (getSmtpConfigs env) ;;
          match JS.find (fun c => String.eqb (cfg_id c) id) configs with
          | None => ret (inl config_not_found)
          | Some config => ret (inr (Some (Stored config)))
          end
      | None =>
          config <- call (getDefaultSmtpConfig env) ;;
          ret (inr (option_map Stored config))
      end
  end.

(** The content, the images and the mail options of the message. *)
Definition compose_mail (data : EmailData) (transport : Transport)
    (smtpConfig : AnySmtpConfig) : M W Prepared :=
  content <- generateEmailContent (templateId data) (templateData data)
               (subject data) (body data) ;;
  let subject := fst content in
  body <-
    match images data with
    | Some (i :: rest) =>
        call (saveAndProcessImages env (snd content) (i :: rest))
    | _ => ret (snd content)
    end ;;
  let defaultFrom := any_user smtpConfig in
  let mailOptions :=
    {| mail_from :=
         match from data with
         | Some f =>
             match JS.as_truthy (name f) with
             | Some n => quoted_address n (email f)
             | None => email f
             end
         | None => defaultFrom
         end;
       mail_to := formatRecipients (to data);
       mail_subject := subject;
       mail_html := body;
       mail_cc := option_map (fun l => formatRecipients (Many l)) (cc data);
       mail_bcc := option_map (fun l => formatRecipients (Many l)) (bcc data) |} in
  ret (mkPrepared transport smtpConfig subject mailOptions).

(** The [try] block of [sendEmail] up to the construction of
    [mailOptions]; [inl r] is an early [return r]. *)
Definition sendEmail_prepare (data : EmailData) (smtpConfigId : option string)
  : M W (SendResult + Prepared) :=
  transport <- createTransport smtpConfigId (smtpConfig data) ;;
  resolved <- resolve_smtpConfig data smtpConfigId ;;
  match resolved with
  | inl early => ret (inl early)
  | inr None => ret (inl config_not_found)
  | inr (Some smtpConfig) =>
      prepared <- compose_mail data transport smtpConfig ;;
      ret (inr prepared)
  end.

Definition sent_message (messageId : string) : string :=
  "Message sent: " ++ messageId.

(** The loop that logs a delivered message, once per recipient. *)
Definition log_delivered (data : EmailData) (p : Prepared) (messageId : string)
  : M W unit :=
  for_each (as_array (to data)) (fun recipient =>
    let configId := config_label (p_smtpConfig p) in
    ts <- timestamp ;;
    log_activity
      {| log_timestamp := ts;
         log_smtpConfig := configId;
         log_templateId := templateId data;
         log_recipient := email recipient;
         log_subject := p_subject p;
         log_success := true;
         log_message := sent_message messageId |}).

(** The [try] block of [sendEmail]. *)
Definition sendEmail_try (data : EmailData) (smtpConfigId : option string)
  : M W SendResult :=
  prepared <- sendEmail_prepare data smtpConfigId ;;
  match prepared with
  | inl early => ret early
  | inr p =>
      messageId <- deliver (p_transport p) (p_mailOptions p) ;;
      log_delivered data p messageId ;;;
      ret {| success := true; message := Some (sent_message messageId) |}
  end.

Definition send_error_message (error : Exn) : string :=
  error_message error "Unknown error sending email".

(** The [catch] block of [sendEmail]; [data.to] is a required field, so
    the test [if (data.to)] holds. *)
Definition sendEmail_catch (data : EmailData) (smtpConfigId : option string)
    (error : Exn) : M W SendResult :=
  logToFile ("Error sending email: " ++ error_text error) ;;;
  for_each (as_array (to data)) (fun recipient =>
    ts <- timestamp ;;
    log_activity
      {| log_timestamp := ts;
         log_smtpConfig := JS.or_else smtpConfigId "unknown";
         log_templateId := templateId data;
         log_recipient := email recipient;
         log_subject := subject data;
         log_success := false;
         log_message := send_error_message error |}) ;;;
  ret {| success := false; message := Some (send_error_message error) |}.

Definition sendEmail (data : EmailData) (smtpConfigId : option string)
  : M W SendResult :=
  try_catch (sendEmail_try data smtpConfigId)
            (sendEmail_catch data smtpConfigId).

(** The running tally of [sendBulkEmails]: [totalSent] and [failures]. *)
Definition Tally : Type := Z * list Failure.

(** The per-recipient request built inside the batch. *)
Definition bulk_emailData (data : BulkEmailData) (recipient : EmailRecipient)
  : EmailData :=
  {| to := One recipient;
     subject := bulk_subject data;
     body := bulk_body data;
     from := bulk_from data;
     cc := bulk_cc data;
     bcc := bulk_bcc data;
     templateId := bulk_templateId data;
     templateData :=
       Some (<["name" := JStr (JS.or_else (name recipient) "")]>
               (<["email" := JStr (email recipient)]>
                  (default ∅ (bulk_templateData data))));
     smtpConfig := bulk_smtpConfig data;
     images := None |}.

(** The callback given to [batch.map]. *)
Definition bulk_send_one (data : BulkEmailData) (smtpConfigId : option string)
    (tally : Tally) (recipient : EmailRecipient) : M W Tally :=
  try_catch
    (result <- sendEmail (bulk_emailData data recipient) smtpConfigId ;;
     if success result then ret (fst tally + 1, snd tally)
     else ret (fst tally,
               (snd tally ++ [mkFailure (email recipient)
                                (JS.or_else (message result) "Unknown error")])%list))
    (fun error =>
       ret (fst tally,
            (snd tally ++ [mkFailure (email recipient)
                             (error_message error "Unknown error")])%list)).

(** The batching loop.  The sends of one batch are started together and
    awaited with [Promise.all]; the model runs them one after the other,
    in the order of the batch. *)
Fixpoint bulk_loop (fuel : nat) (data : BulkEmailData)
    (smtpConfigId : option string) (size delay : Z) (i : Z) (tally : Tally)
  : M W Tally :=
  match fuel with
  | O => out_of_fuel
  | S fuel' =>
      let len := Z.of_nat (length (recipients data)) in
      if i <? len then
        let batch := JS.slice (recipients data) i (i + size) in
        emit (EvBatch batch) ;;;
        tally' <- fold_each batch (bulk_send_one data smtpConfigId) tally ;;
        (if i + size <? len then emit (EvDelay delay) else ret tt) ;;;
        bulk_loop fuel' data smtpConfigId size delay (i + size) tally'
      else ret tally
  end.

Definition bulk_summary (sent : Z) (total : nat) : string :=
  "Successfully sent " ++ pretty sent ++ " out of " ++ pretty total
    ++ " emails".

(** [fuel] bounds the turns of the batching loop.  The callback of a batch
    catches what its [sendEmail] throws, so for a request of the declared
    type nothing reaches the outer [catch]. *)
Definition sendBulkEmails (fuel : nat) (data : BulkEmailData)
    (smtpConfigId : option string) : M W BulkResult :=
  try_catch
    (let size := default 10 (batchSize data) in
     let delay := default 1000 (delayBetweenBatches data) in
     match recipients data with
     | [] =>
         ret {| bulk_success := false; totalSent := 0; totalFailed := 0;
                failures := None;
                bulk_message := Some "No recipients provided" |}
     | _ :: _ =>
         tally <- bulk_loop fuel data smtpConfigId size delay 0 (0, []) ;;
         let '(sent, failed) := tally in
         ret {| bulk_success := 0 <? sent;
                totalSent := sent;
                totalFailed := Z.of_nat (length failed);
                failures := match failed with [] => None | _ => Some failed end;
                bulk_message :=
                  Some (bulk_summary sent (length (recipients data))) |}
     end)
    (fun error =>
       logToFile ("Error sending bulk emails: " ++ error_text error) ;;;
       ret {| bulk_success := false; totalSent := 0;
              totalFailed := Z.of_nat (length (recipients data));
              failures := None;
              bulk_message :=
                Some (error_message error "Unknown error sending bulk emails") |}).
End EmailService.

(** ** Vocabulary of the properties *)

(** [has_char c s]: the character [c] occurs in [s]. *)
Fixpoint has_char (c : ascii) (s : string) : bool :=
  match s with
  | EmptyString => false
  | String x t => Ascii.eqb x c || has_char c t
  end.

(** The text of a placeholder. *)
Definition token (key : string) : string := "{{" ++ key ++ "}}".

(** The events of the batching loop itself. *)
Definition is_sched (ev : Event) : bool :=
  match ev with
  | EvBatch _ | EvDelay _ => true
  | _ => false
  end.

(** The calls of [logEmailActivity]. *)
Definition is_log (ev : Event) : bool :=
  match ev with
  | EvLogEmailActivity _ _ => true
  | _ => false
  end.

(** The entries that were written: the calls of [logEmailActivity] that
    returned. *)
Definition written_entries (t : list Event) : list EmailLogEntry :=
  omap (fun ev => match ev with
                  | EvLogEmailActivity e true => Some e
                  | _ => None
                  end) t.

(** The messages handed to the transport. *)
Definition sent_mails (t : list Event) : list MailOptions :=
  omap (fun ev => match ev with
                  | EvSendMail _ m => Some m
                  | _ => None
                  end) t.

(** The addresses of the entries written so far. *)
Definition logged {W} (s : State W) : list string :=
  map log_recipient (written_entries (trace s)).

(** A computation that comes to an end by itself and adds no event
    selected by [P] to the trace. *)
Definition keeps {W A} (P : Event -> bool) (m : M W A) : Prop :=
  forall s, fst (m s) <> OutOfFuel
            /\ List.filter P (trace (snd (m s))) = List.filter P (trace s).

(** A predicate on events that is blind to console output, to the file
    log and to deliveries. *)
Definition blind_to_io (P : Event -> bool) : Prop :=
  (forall t, P (EvConsoleLog t) = false)
  /\ (forall t, P (EvConsoleWarn t) = false)
  /\ (forall t, P (EvLogToFile t) = false)
  /\ (forall t m, P (EvSendMail t m) = false).

(** Contiguous batches of [size] elements in input order, the last one
    holding the remainder. *)
Fixpoint chunks_go {A} (fuel size : nat) (l : list A) : list (list A) :=
  match fuel with
  | O => []
  | S fuel' =>
      match l with
      | [] => []
      | _ :: _ => firstn size l :: chunks_go fuel' size (skipn size l)
      end
  end.

Definition chunks {A} (size : nat) (l : list A) : list (list A) :=
  chunks_go (length l) size l.

(** The batches in order, with a pause between two of them and none after
    the last. *)
Fixpoint schedule (delay : Z) (batches : list (list EmailRecipient))
  : list Event :=
  match batches with
  | [] => []
  | [b] => [EvBatch b]
  | b :: rest => EvBatch b :: EvDelay delay :: schedule delay rest
  end.

(** The store answers the same whenever it is asked. *)
Definition stable {W A} (c : Answer W A) : Prop :=
  forall w1 w2, fst (c w1) = fst (c w2).

(** The collaborator returns on every input selected by [P]. *)
Definition log_returns {W} (env : Env W) (P : EmailLogEntry -> bool) : Prop :=
  forall e w, P e = true -> exists w', logEmailActivity env e w = (inr tt, w').


(** ** Sample environments and requests *)

Module Sample.

Definition office : SmtpServerConfig :=
  mkSmtpServerConfig "office" "Office" "smtp.office.example" 587 false
    "relay@office.example" "secret" true.

Definition backup : SmtpServerConfig :=
  mkSmtpServerConfig "backup" "Backup" "smtp.backup.example" 465 true
    "relay@backup.example" "secret" false.

Definition inline : DynamicSmtpConfig :=
  mkDynamicSmtpConfig "smtp.inline.example" 2525 false
    "me@inline.example" "pw".

Definition welcome : EmailTemplate :=
  mkEmailTemplate "welcome" "Hi {{name}}" "Dear {{ name }} <{{email}}>" true.

(** The world counts the calls of [logEmailActivity]; [log_ok n] says
    whether the call number [n] returns; [mail_ok m] whether the
    transport accepts the message. *)
Definition env (log_ok : nat -> bool) (mail_ok : MailOptions -> bool)
    (default_config : option SmtpServerConfig) : Env nat :=
  {| getSmtpConfigs := fun w => (inr [office; backup], w);
     getDefaultSmtpConfig := fun w => (inr default_config, w);
     getEmailTemplates := fun w => (inr [welcome], w);
     getDefaultEmailTemplate := fun w => (inr (Some welcome), w);
     logEmailActivity := fun _ w =>
       (if log_ok w then inr tt
        else inl (JsError "Error" "log store unavailable"), S w);
     sendMail := fun _ m w =>
       (if mail_ok m then inr "MID1"
        else inl (JsError "Error" "mailbox unavailable"), w);
     saveAndProcessImages := fun b _ w => (inr b, w);
     now := fun w => pretty w |}.

Definition always {A} (_ : A) : bool := true.
Definition never {A} (_ : A) : bool := false.

(** Everything works. *)
Definition healthy : Env nat := env always always (Some office).

(** The transport rejects every message. *)
Definition rejecting : Env nat := env always never (Some office).

(** The log store is down. *)
Definition log_down : Env nat := env never always (Some office).

(** The first write to the log store fails, the later ones succeed. *)
Definition log_hiccup : Env nat :=
  env (fun n => negb (n =? 0)%nat) always (Some office).

(** The transport rejects the messages to [r2@x.com]. *)
Definition picky : Env nat :=
  env always
    (fun m => match mail_to m with
              | One a => negb (String.eqb a "r2@x.com")
              | Many _ => true
              end)
    (Some office).

(** The transport rejects every message and the log store is down. *)
Definition offline : Env nat := env never never (Some office).

(** A store that is read and changed at the same time: the world counts
    the reads, the first read finds the configuration [office], the later
    ones find nothing. *)
Definition vanishing : Env nat :=
  {| getSmtpConfigs := fun w =>
       (inr (if (w =? 0)%nat then [office] else []), S w);
     getDefaultSmtpConfig := fun w => (inr (Some office), w);
     getEmailTemplates := fun w => (inr [welcome], w);
     getDefaultEmailTemplate := fun w => (inr (Some welcome), w);
     logEmailActivity := fun _ w => (inr tt, w);
     sendMail := fun _ _ w => (inr "MID1", w);
     saveAndProcessImages := fun b _ w => (inr b, w);
     now := fun w => pretty w |}.

(** No configuration is marked default. *)
Definition no_default : Env nat := env always always None.

Definition start : State nat := mkState 0%nat [].

(** A display name with a double quote and angle brackets in it. *)
Definition eve : string := "Eve" ++ dquote ++ " <eve@evil.example>".

Definition ann : EmailRecipient := mkRecipient "ann@x.com" (Some "Ann").
Definition bob : EmailRecipient := mkRecipient "bob@x.com" None.

Definition request (rcpt : OneOrMany EmailRecipient)
    (template : option string) : EmailData :=
  {| to := rcpt; subject := "S"; body := "B"; from := None; cc := None;
     bcc := None; templateId := template;
     templateData := Some (<["name" := JStr "Ann"]> ∅);
     smtpConfig := None; images := None |}.

Definition crowd (n : nat) : list EmailRecipient :=
  map (fun i => mkRecipient ("r" ++ pretty i ++ "@x.com") None) (seq 0 n).

Definition bulk_request (rcpts : list EmailRecipient) (size : option Z)
  : BulkEmailData :=
  {| recipients := rcpts; bulk_subject := "S"; bulk_body := "B";
     bulk_from := None; bulk_cc := None; bulk_bcc := None;
     bulk_templateId := None; bulk_templateData := None;
     batchSize := size; delayBetweenBatches := None;
     bulk_smtpConfig := None |}.

End Sample.

(** What the tally of a bulk send may become over a list of recipients:
    every recipient adds one to [totalSent] or appends one failure that
    carries its address. *)
Inductive Tallied : list EmailRecipient -> Tally -> Tally -> Prop :=
  | tallied_done (t : Tally) : Tallied [] t t
  | tallied_sent r rs sent failed t' :
      Tallied rs (sent + 1, failed) t' ->
      Tallied (r :: rs) (sent, failed) t'
  | tallied_failed r rs sent failed error t' :
      Tallied rs (sent, (failed ++ [mkFailure (email r) error])%list) t' ->
      Tallied (r :: rs) (sent, failed) t'.

(** [failures.length > 0 ? failures : undefined], read back as a list. *)
Definition failure_list (r : BulkResult) : list Failure :=
  default [] (failures r).

(** ** The HTTP handlers of apiService.ts that call the e-mail service *)

(** The JSON body of [POST /api/email/send]: the fields of an [EmailData],
    of which the required ones may be missing, and [smtpConfigId]. *)
Record SendBody : Type := mkSendBody {
  sb_to : option (OneOrMany EmailRecipient);
  sb_subject : option string;
  sb_body : option string;
  sb_from : option EmailRecipient;
  sb_cc : option (list EmailRecipient);
  sb_bcc : option (list EmailRecipient);
  sb_templateId : option string;
  sb_templateData : option TemplateData;
  sb_smtpConfig : option DynamicSmtpConfig;
  sb_images : option (list Image);
  sb_smtpConfigId : option string
}.

(** The JSON body of [POST /api/email/bulk]. *)
Record BulkBody : Type := mkBulkBody {
  bb_recipients : option (list EmailRecipient);
  bb_subject : option string;
  bb_body : option string;
  bb_from : option EmailRecipient;
  bb_cc : option (list EmailRecipient);
  bb_bcc : option (list EmailRecipient);
  bb_templateId : option string;
  bb_templateData : option TemplateData;
  bb_batchSize : option Z;
  bb_delayBetweenBatches : option Z;
  bb_smtpConfig : option DynamicSmtpConfig;
  bb_smtpConfigId : option string
}.

(** The JSON objects the two handlers answer with. *)
Inductive ApiJson : Type :=
  | JsonMissing (error : string)
  | JsonSent (message : option string)
  | JsonNotSent (error : option string)
  | JsonInternal (message : string)
  | JsonBulk (result : BulkResult).

Record HttpResponse : Type := mkHttpResponse {
  http_status : Z;
  http_json : ApiJson
}.

(** The request body of the send handler, read as the [EmailData] it is
    passed on as. *)
Definition send_emailData (req : SendBody) (rcpt : OneOrMany EmailRecipient)
    (subj b : string) : EmailData :=
  {| to := rcpt; subject := subj; body := b; from := sb_from req;
     cc := sb_cc req; bcc := sb_bcc req; templateId := sb_templateId req;
     templateData := sb_templateData req; smtpConfig := sb_smtpConfig req;
     images := sb_images req |}.

Definition bulk_emailBody (req : BulkBody) (rcpts : list EmailRecipient)
    (subj b : string) : BulkEmailData :=
  {| recipients := rcpts; bulk_subject := subj; bulk_body := b;
     bulk_from := bb_from req; bulk_cc := bb_cc req; bulk_bcc := bb_bcc req;
     bulk_templateId := bb_templateId req;
     bulk_templateData := bb_templateData req;
     batchSize := bb_batchSize req;
     delayBetweenBatches := bb_delayBetweenBatches req;
     bulk_smtpConfig := bb_smtpConfig req |}.

Definition missing_send_fields : HttpResponse :=
  mkHttpResponse 400 (JsonMissing "Missing required fields: to, subject, body").

Definition missing_bulk_fields : HttpResponse :=
  mkHttpResponse 400
    (JsonMissing "Missing required fields: recipients, subject, body").

Section ApiService.
Context {W : Type} (env : Env W).

(** The handler of [POST /api/email/send]. *)
Definition api_email_send (req : SendBody) : M W HttpResponse :=
  try_catch
    (match sb_to req, JS.as_truthy (sb_subject req),
           JS.as_truthy (sb_body req) with
     | Some rcpt, Some subj, Some b =>
         result <- sendEmail env (send_emailData req rcpt subj b)
                     (sb_smtpConfigId req) ;;
         if success result
         then ret (mkHttpResponse 200 (JsonSent (message result)))
         else ret (mkHttpResponse 400 (JsonNotSent (message result)))
     | _, _, _ => ret missing_send_fields
     end)
    (fun error =>
       logToFile ("API error sending email: " ++ error_text error) ;;;
       ret (mkHttpResponse 500
              (JsonInternal (error_message error "Unknown error")))).

(** The handler of [POST /api/email/bulk]; [fuel] is that of
    [sendBulkEmails]. *)
Definition api_email_bulk (fuel : nat) (req : BulkBody) : M W HttpResponse :=
  try_catch
    (match bb_recipients req, JS.as_truthy (bb_subject req),
           JS.as_truthy (bb_body req) with
     | Some rcpts, Some subj, Some b =>
         result <- sendBulkEmails env fuel (bulk_emailBody req rcpts subj b)
                     (bb_smtpConfigId req) ;;
         ret (mkHttpResponse 200 (JsonBulk result))
     | _, _, _ => ret missing_bulk_fields
     end)
    (fun error =>
       logToFile ("API error sending bulk emails: " ++ error_text error) ;;;
       ret (mkHttpResponse 500
              (JsonInternal (error_message error "Unknown error")))).
End ApiService.

(** ** saveAndProcessImages *)

(** What [saveAndProcessImages] uses of Node: the working directory, the
    functions of [path], the variables of [process.env], the synchronous
    calls of [fs], and the suffix made of [Date.now()] and
    [Math.random()], which leaves the world changed. *)
Record ImageEnv (W : Type) : Type := mkImageEnv {
  cwd : string;
  path_join : list string -> string;
  path_extname : string -> string;
  env_PORT : option string;
  env_PROTOCOL : option string;
  env_HOST : option string;
  env_BASE_URL : option string;
  existsSync : string -> W -> bool;
  mkdirSync : string -> Answer W unit;
  writeFileSync : string -> string -> Answer W unit;
  uniqueSuffix : W -> string * W
}.
Arguments cwd {W} i.
Arguments path_join {W} i.
Arguments path_extname {W} i.
Arguments env_PORT {W} i.
Arguments env_PROTOCOL {W} i.
Arguments env_HOST {W} i.
Arguments env_BASE_URL {W} i.
Arguments existsSync {W} i.
Arguments mkdirSync {W} i.
Arguments writeFileSync {W} i.
Arguments uniqueSuffix {W} i.

(** The two quote characters of the character class of the pattern. *)
Definition is_quote (c : ascii) : bool :=
  Ascii.eqb c "034" || Ascii.eqb c "039".

(** A match, anchored at the start of [s], of the pattern that
    [saveAndProcessImages] builds for a file name: the text [src=], a
    quote character, the file name, a quote character.  The matched text
    and the rest are returned.  Every character of the file name that a
    pattern reads specially is escaped first, so the name matches itself
    and nothing else. *)
Definition match_src (name s : string) : option (string * string) :=
  match strip_prefix "src=" s with
  | Some (String q1 t) =>
      if is_quote q1 then
        match strip_prefix name t with
        | Some (String q2 rest) =>
            if is_quote q2
            then Some ("src=" ++ String q1 (name ++ String q2 EmptyString), rest)
            else None
        | _ => None
        end
      else None
  | _ => None
  end.

(** [regex.test(s)]: the pattern matches somewhere in [s]. *)
Fixpoint test_src (name s : string) : bool :=
  match match_src name s with
  | Some _ => true
  | None =>
      match s with
      | String _ t => test_src name t
      | EmptyString => false
      end
  end.

(** The replacement text that [String.prototype.replace] makes of a
    replacement string, for a pattern without groups: a dollar followed
    by a dollar is one dollar, followed by an ampersand the matched text,
    by a backquote the text before the match, by a quote the text after
    it; any other dollar stays. *)
Fixpoint expand_replacement (repl matched before after : string) : string :=
  match repl with
  | EmptyString => EmptyString
  | String c t =>
      if Ascii.eqb c "$" then
        match t with
        | String d u =>
            if Ascii.eqb d "$" then
              String "$" (expand_replacement u matched before after)
            else if Ascii.eqb d "&" then
              matched ++ expand_replacement u matched before after
            else if Ascii.eqb d "096" then
              before ++ expand_replacement u matched before after
            else if Ascii.eqb d "039" then
              after ++ expand_replacement u matched before after
            else String c (expand_replacement t matched before after)
        | EmptyString => String c EmptyString
        end
      else String c (expand_replacement t matched before after)
  end.

(** [s.replace(regex, repl)] with the global flag; [before] is the text
    of the whole string in front of [s]. *)
Fixpoint replace_src (fuel : nat) (name repl before s : string) : string :=
  match fuel with
  | O => s
  | S fuel' =>
      match s with
      | EmptyString => EmptyString
      | String c t =>
          match match_src name s with
          | Some (matched, rest) =>
              expand_replacement repl matched before rest
                ++ replace_src fuel' name repl (before ++ matched) rest
          | None =>
              String c (replace_src fuel' name repl
                          (before ++ String c EmptyString) t)
          end
      end
  end.

Module Images.
Section Images.
Context {W : Type} (io : ImageEnv W).

(** [Date.now() + '-' + Math.round(Math.random() * 1E9)] *)
Definition unique_suffix : M W string :=
  fun s => let '(x, w') := uniqueSuffix io (world s) in
           (Ok x, mkState w' (trace s)).

(** The body of the loop over the images, with its [try] and [catch]:
    from the body so far to the body after this image. *)
Definition process_image (uploadDir baseUrl newBody : string) (image : Image)
  : M W string :=
  try_catch
    (if negb (JS.truthy (content image)) || negb (JS.truthy (filename image))
     then ret newBody
     else
       uniqueSuffix <- unique_suffix ;;
       let ext := path_extname io (filename image) in
       let newFilename := "img-" ++ uniqueSuffix ++ ext in
       let filePath := path_join io [uploadDir; newFilename] in
       call (writeFileSync io filePath (content image)) ;;;
       let imageUrl := baseUrl ++ "/public/images/" ++ newFilename in
       logToFile ("Saved image " ++ filename image ++ " to " ++ imageUrl) ;;;
       if test_src (filename image) newBody
       then ret (replace_src (String.length newBody) (filename image)
                   ("src=" ++ dquote ++ imageUrl ++ dquote) EmptyString newBody)
       else ret newBody)
    (fun err =>
       logToFile ("Error processing image " ++ filename image ++ ": "
                    ++ error_text err) ;;;
       ret newBody).

(** The function [saveAndProcessImages] of emailService.ts itself, which
    the environment of [sendEmail] holds as a collaborator.  The content
    of an image is written as the bytes its base64 text stands for; the
    model hands the text itself to [writeFileSync]. *)
Definition saveAndProcessImages (body : string)
    (images : option (list Image)) : M W string :=
  match images with
  | None | Some [] => ret body
  | Some (i :: rest) =>
      let uploadDir := path_join io [cwd io; "public"; "images"] in
      (fun s => if existsSync io uploadDir (world s) then ret tt s
                else call (mkdirSync io uploadDir) s) ;;;
      let port := JS.or_else (env_PORT io) "3007" in
      let protocol := JS.or_else (env_PROTOCOL io) "http" in
      let host := JS.or_else (env_HOST io) "localhost" in
      let baseUrl := JS.or_else (env_BASE_URL io)
                       (protocol ++ "://" ++ host ++ ":" ++ port) in
      fold_each (i :: rest) (process_image uploadDir baseUrl) body
  end.
End Images.
End Images.

(** ** More vocabulary *)

(** [occurs p s]: the text [p] occurs in [s]. *)
Fixpoint occurs (p s : string) : bool :=
  match strip_prefix p s with
  | Some _ => true
  | None =>
      match s with
      | String _ t => occurs p t
      | EmptyString => false
      end
  end.

(** A computation that only appends to the trace, and appends only events
    that satisfy [Q]. *)
Definition adds {W A} (Q : Event -> Prop) (m : M W A) : Prop :=
  forall s, exists evs,
    trace (snd (m s)) = (trace s ++ evs)%list /\ Forall Q evs.

(** An event that is no delivery. *)
Definition no_delivery (ev : Event) : Prop :=
  match ev with
  | EvSendMail _ _ => False
  | _ => True
  end.

(** The addressees of the messages handed to the transport so far. *)
Definition delivered_to {W} (s : State W) : list (OneOrMany string) :=
  map mail_to (sent_mails (trace s)).



Definition is_batch (ev : Event) : bool :=
  match ev with EvBatch _ => true | _ => false end.

Definition is_delay (ev : Event) : bool :=
  match ev with EvDelay _ => true | _ => false end.

(** The number of batches for [n] recipients: [n / size], rounded up. *)
Definition batch_count (n size : nat) : nat := ((n + size - 1) / size)%nat.

(** ** A sample disk *)

Module Disk.

(** The world is the list of the files written so far, the last one
    first.  The directory of the images exists when [ready] says so, and
    making it works unless [sealed]; a file whose content is the text
    [broken] cannot be written. *)
Definition io (ready sealed : bool) : ImageEnv (list (string * string)) :=
  {| cwd := "/srv/app";
     path_join := String.concat "/";
     path_extname := fun _ => ".png";
     env_PORT := None;
     env_PROTOCOL := None;
     env_HOST := None;
     env_BASE_URL := Some "https://mail.example";
     existsSync := fun _ _ => ready;
     mkdirSync := fun _ w =>
       (if sealed then inl (JsError "Error" "EACCES: permission denied")
        else inr tt, w);
     writeFileSync := fun p c w =>
       if String.eqb c "broken"
       then (inl (JsError "Error" "ENOSPC: no space left on device"), w)
       else (inr tt, (p, c) :: w);
     uniqueSuffix := fun w => (pretty (length w), w) |}.

Definition empty : State (list (string * string)) := mkState [] [].

Definition logo : Image := mkImage "aGVsbG8=" "logo.png" None.
Definition chart : Image := mkImage "broken" "chart.png" None.

(** An image the page does not show, and one without content. *)
Definition photo : Image := mkImage "aGVsbG8=" "photo.png" None.
Definition blank : Image := mkImage "" "logo.png" None.

Definition page : string :=
  "<img src=" ++ dquote ++ "logo.png" ++ dquote ++ "><img src='chart.png'>".

End Disk.

(** The environment with another template store. *)
Definition with_templates {W} (env : Env W)
    (templates : Answer W (list EmailTemplate))
    (default_template : Answer W (option EmailTemplate)) : Env W :=
  {| getSmtpConfigs := getSmtpConfigs env;
     getDefaultSmtpConfig := getDefaultSmtpConfig env;
     getEmailTemplates := templates;
     getDefaultEmailTemplate := default_template;
     logEmailActivity := logEmailActivity env;
     sendMail := sendMail env;
     saveAndProcessImages := saveAndProcessImages env;
     now := now env |}.

(** A template store that cannot be read. *)
Definition templates_down {W} : Answer W (list EmailTemplate) :=
  fun w => (inl (JsError "Error" "template store unavailable"), w).

(** * Properties *)

(** ** Template Renderer *)

Section TemplateFacts.
Variable data : TemplateData.

Lemma append_assoc (a b c : string) : (a ++ b) ++ c = a ++ (b ++ c).
Proof. induction a as [|x a IH]; simpl; [reflexivity | now rewrite IH]. Qed.

Lemma length_append (a b : string) :
  String.length (a ++ b) = (String.length a + String.length b)%nat.
Proof. induction a as [|x a IH]; simpl; [reflexivity | now rewrite IH]. Qed.

Lemma strip_prefix_append (p s : string) : strip_prefix p (p ++ s) = Some s.
Proof.
  induction p as [|c p IH]; simpl; [reflexivity|].
  now rewrite Ascii.eqb_refl.
Qed.

Lemma strip_prefix_inv (p s r : string) :
  strip_prefix p s = Some r -> s = p ++ r.
Proof.
  revert s. induction p as [|c p IH]; simpl; intros s H.
  - now inversion H.
  - destruct s as [|d s]; [discriminate|].
    destruct (Ascii.eqb c d) eqn:E; [|discriminate].
    apply Ascii.eqb_eq in E. subst d. f_equal. now apply IH.
Qed.

Lemma span_key_closed (k rest : string) :
  has_char "}" k = false ->
  span_key (k ++ String "}" rest) = (k, String "}" rest).
Proof.
  induction k as [|c k IH]; simpl; intros H.
  - reflexivity.
  - apply orb_false_elim in H as [Hc Hk].
    rewrite Hc, (IH Hk). reflexivity.
Qed.

Lemma span_key_inv (s k r : string) :
  span_key s = (k, r) -> s = k ++ r /\ has_char "}" k = false.
Proof.
  revert k r. induction s as [|c s IH]; simpl; intros k r H.
  - inversion H; subst. auto.
  - destruct (Ascii.eqb c "}") eqn:Ec.
    + inversion H; subst. auto.
    + destruct (span_key s) as [k' r'] eqn:E. inversion H; subst.
      destruct (IH _ _ eq_refl) as [-> Hk]. simpl. rewrite Ec. auto.
Qed.

(** A match is the text [{{key}}] for a non-empty key free of closing
    braces, and it is a prefix of the string. *)
Lemma match_token_inv (s m k r : string) :
  match_token s = Some (m, k, r) ->
  s = m ++ r /\ m = token k /\ JS.truthy k = true /\ has_char "}" k = false.
Proof.
  unfold match_token. intros H.
  destruct (strip_prefix "{{" s) as [t|] eqn:E1; [|discriminate].
  destruct (span_key t) as [k' r'] eqn:E2.
  destruct (JS.truthy k') eqn:E3; [|discriminate].
  destruct (strip_prefix "}}" r') as [rest|] eqn:E4; [|discriminate].
  inversion H; subst. clear H.
  apply strip_prefix_inv in E1, E4. apply span_key_inv in E2 as [E2 Hk].
  subst. unfold token. simpl. rewrite append_assoc. auto.
Qed.

Lemma match_token_token (k rest : string) :
  JS.truthy k = true -> has_char "}" k = false ->
  match_token (token k ++ rest) = Some (token k, k, rest).
Proof.
  intros Ht Hk. unfold match_token, token.
  rewrite !append_assoc. rewrite strip_prefix_append.
  change ("}}" ++ rest) with (String "}" (String "}" rest)).
  rewrite (span_key_closed _ _ Hk), Ht.
  reflexivity.
Qed.

Lemma match_token_other (c : ascii) (t : string) :
  Ascii.eqb c "{" = false -> match_token (String c t) = None.
Proof.
  intros H. unfold match_token. cbn [strip_prefix].
  rewrite Ascii.eqb_sym in H. now rewrite H.
Qed.

Lemma match_token_shorter (s m k r : string) :
  match_token s = Some (m, k, r) -> (String.length r < String.length s)%nat.
Proof.
  intros H. apply match_token_inv in H as (-> & -> & _ & _).
  unfold token. rewrite !length_append. simpl. lia.
Qed.

Lemma replace_all_fuel (f1 f2 : nat) (s : string) :
  (String.length s <= f1)%nat -> (String.length s <= f2)%nat ->
  replace_all f1 data s = replace_all f2 data s.
Proof.
  revert f2 s. induction f1 as [|f1 IH]; intros f2 s H1 H2.
  - destruct s; simpl in H1; [|lia]. destruct f2; reflexivity.
  - destruct f2 as [|f2].
    + destruct s; simpl in H2; [reflexivity | lia].
    + destruct s as [|c t]; [reflexivity|]. simpl.
      destruct (match_token (String c t)) as [[[m k] r]|] eqn:E.
      * apply match_token_shorter in E. simpl in *.
        f_equal. apply IH; lia.
      * f_equal. simpl in *. apply IH; lia.
Qed.

(** The loop of [replace], one step at a time. *)
Lemma processTemplate_step (c : ascii) (t : string) :
  processTemplate (String c t) data =
    match match_token (String c t) with
    | Some (m, k, rest) => replacer data m k ++ processTemplate rest data
    | None => String c (processTemplate t data)
    end.
Proof.
  unfold processTemplate. simpl.
  destruct (match_token (String c t)) as [[[m k] r]|] eqn:E.
  - apply match_token_shorter in E. simpl in E.
    f_equal. apply replace_all_fuel; lia.
  - reflexivity.
Qed.

(** Text without an opening brace is copied. *)
Lemma processTemplate_literal (lit rest : string) :
  has_char "{" lit = false ->
  processTemplate (lit ++ rest) data = lit ++ processTemplate rest data.
Proof.
  induction lit as [|c lit IH]; simpl; intros H; [reflexivity|].
  apply orb_false_elim in H as [Hc Hl].
  rewrite processTemplate_step, (match_token_other _ _ Hc), (IH Hl).
  reflexivity.
Qed.

(** A pattern without an opening brace is its own rendering. *)
Lemma processTemplate_plain (lit : string) :
  has_char "{" lit = false -> processTemplate lit data = lit.
Proof.
  intros H. pose proof (processTemplate_literal lit EmptyString H) as E.
  assert (forall x : string, x ++ EmptyString = x) as Hnil
    by (induction x as [|c x IH]; simpl; [reflexivity | now rewrite IH]).
  rewrite Hnil in E. rewrite E. apply Hnil.
Qed.

(** A placeholder after literal text is handed to the replacer, and the
    scan resumes behind the placeholder: what the replacer returns is
    not scanned. *)
Lemma processTemplate_token (lit key rest : string) :
  has_char "{" lit = false ->
  JS.truthy key = true -> has_char "}" key = false ->
  processTemplate (lit ++ token key ++ rest) data =
    lit ++ replacer data (token key) key ++ processTemplate rest data.
Proof.
  intros Hl Ht Hk. rewrite (processTemplate_literal _ _ Hl). f_equal.
  pose proof (match_token_token key rest Ht Hk) as E.
  remember (token key ++ rest) as s eqn:Es.
  destruct s as [|c t].
  { unfold token in Es. simpl in Es. discriminate. }
  rewrite processTemplate_step, E. reflexivity.
Qed.




End TemplateFacts.

(** The example of the specification: a present key is substituted, an
    absent one stays, and white space around a key is trimmed. *)
Example processTemplate_example :
  processTemplate "Hi {{ name }}, from {{org}}" (<["name" := JStr "Ann"]> ∅)
  = "Hi Ann, from {{org}}".
Proof. vm_compute. reflexivity. Qed.

(** Falsy but defined values are substituted. *)
Example processTemplate_falsy :
  processTemplate "{{a}}|{{b}}|{{c}}|{{d}}"
    (<["a" := JNum 0]> (<["b" := JStr ""]> (<["c" := JBool false]>
       (<["d" := JNull]> ∅))))
  = "0||false|null".
Proof. vm_compute. reflexivity. Qed.

(** A substituted value that looks like a placeholder is left alone. *)
Example processTemplate_no_rescan :
  processTemplate "{{a}}" (<["a" := JStr "{{b}}"]> (<["b" := JStr "x"]> ∅))
  = "{{b}}".
Proof. vm_compute. reflexivity. Qed.

(** C3. The placeholder [{{constructor}}] names a key that the empty
    substitution data does not hold, yet [processTemplate] does not leave
    it as literal text: [data[key]] finds the property that every plain
    object inherits, and the placeholder is replaced by the string form of
    that function. *)
Theorem processTemplate_inherited_key_substituted :
  (∅ : TemplateData) !! "constructor" = None
  /\ processTemplate "{{constructor}}" ∅ = "function Object() { [native code] }"
  /\ processTemplate "{{constructor}}" ∅ <> "{{constructor}}".
Proof.
  split; [reflexivity|]. split; [vm_compute; reflexivity|].
  vm_compute. discriminate.
Qed.

(** ** Recipient Formatter *)

(** C10. [formatRecipient] returns the display name between double quotes
    followed by the address between angle brackets when the recipient has
    a (non-empty) display name, and the bare address otherwise; the display
    name is put in as it is, whatever characters it holds. *)
Theorem formatRecipient_verbatim (r : EmailRecipient) :
  (forall n, name r = Some n -> JS.truthy n = true ->
             formatRecipient r = dquote ++ n ++ dquote ++ " <" ++ email r ++ ">")
  /\ (JS.as_truthy (name r) = None -> formatRecipient r = email r)
  /\ (forall rs, formatRecipients (Many rs) = Many (map formatRecipient rs))
  /\ formatRecipients (One r) = One (formatRecipient r).
Proof.
  unfold formatRecipient, JS.as_truthy. repeat split.
  - intros n -> ->. reflexivity.
  - destruct (name r) as [n|]; [|reflexivity].
    destruct (JS.truthy n); [discriminate | reflexivity].
Qed.

(** A display name with a double quote and angle brackets in it goes into
    the address string unchanged. *)
Lemma formatRecipient_verbatim_witness :
  formatRecipient (mkRecipient "a@x.com" (Some Sample.eve))
    = dquote ++ Sample.eve ++ dquote ++ " <a@x.com>"
  /\ formatRecipient (mkRecipient "a@x.com" None) = "a@x.com".
Proof.
  split.
  - apply (proj1 (formatRecipient_verbatim
                    (mkRecipient "a@x.com" (Some Sample.eve))));
      reflexivity.
  - apply (proj1 (proj2 (formatRecipient_verbatim (mkRecipient "a@x.com" None))));
      reflexivity.
Defined.

(** ** Transport Factory *)

Section TransportFacts.
Context {W : Type} (env : Env W).

Lemma find_by_id_some (i : string) (configs : list SmtpServerConfig) c :
  JS.find (fun c => String.eqb (cfg_id c) i) configs = Some c ->
  In c configs /\ cfg_id c = i.
Proof.
  unfold JS.find. intros H. apply List.find_some in H as [Hin Heq].
  split; [exact Hin | now apply String.eqb_eq].
Qed.

Lemma find_by_id_none (i : string) (configs : list SmtpServerConfig) :
  JS.find (fun c => String.eqb (cfg_id c) i) configs = None ->
  forall c, In c configs -> cfg_id c <> i.
Proof.
  unfold JS.find. intros H c Hin Heq.
  pose proof (List.find_none _ _ H c Hin) as Hf. simpl in Hf.
  apply String.eqb_neq in Hf. contradiction.
Qed.

(** The inline configuration: no store is asked. *)
Lemma createTransport_inline id dc (s : State W) :
  createTransport env id (Some dc) s =
    (Ok (nodemailer_createTransport (Dynamic dc)),
     mkState (world s)
       (trace s ++ [EvConsoleLog "Using dynamic SMTP config from request";
                    EvConsoleLog ("Creating transport for: " ++ host dc ++ ":"
                                    ++ pretty (port dc))])).
Proof.
  unfold createTransport, bind, console_log, emit, ret. simpl.
  rewrite <- app_assoc. reflexivity.
Qed.

(** Resolution by id, on the list the store returns. *)
Lemma createTransport_by_id id i configs w' (s : State W) :
  JS.as_truthy id = Some i ->
  getSmtpConfigs env (world s) = (inr configs, w') ->
  fst (createTransport env id None s) =
    match JS.find (fun c => String.eqb (cfg_id c) i) configs with
    | Some c => Ok (nodemailer_createTransport (Stored c))
    | None => Throw (JsError "Error"
                       ("SMTP configuration with ID " ++ i ++ " not found"))
    end.
Proof.
  intros Hid Hget.
  unfold createTransport, bind, call, console_log, emit, ret, throw.
  rewrite Hid. simpl. rewrite Hget.
  destruct (JS.find _ configs); reflexivity.
Qed.

(** Resolution of the default, on what the store returns. *)
Lemma createTransport_default id d w' (s : State W) :
  JS.as_truthy id = None ->
  getDefaultSmtpConfig env (world s) = (inr d, w') ->
  fst (createTransport env id None s) =
    match d with
    | Some c => Ok (nodemailer_createTransport (Stored c))
    | None => Throw undefined_host_error
    end.
Proof.
  intros Hid Hget.
  unfold createTransport, bind, call, console_log, emit, ret, throw.
  rewrite Hid. simpl. rewrite Hget.
  destruct d; reflexivity.
Qed.
End TransportFacts.

(** C2. [createTransport] resolves the configuration in strict order.
    (1) An inline configuration is used whatever the id and the stores
    are, and no store is asked.  (2) Without one, a supplied (non-empty)
    id selects the stored configuration with that id, and resolution
    fails when the store has none.  (3) Without either, the default of
    the store is used, and resolution fails when the store has none. *)
Theorem createTransport_precedence {W} (env : Env W) (id : option string)
    (s : State W) :
  (forall dc,
      fst (createTransport env id (Some dc) s)
        = Ok (nodemailer_createTransport (Dynamic dc))
      /\ world (snd (createTransport env id (Some dc) s)) = world s)
  /\ (forall i configs w',
         JS.as_truthy id = Some i ->
         getSmtpConfigs env (world s) = (inr configs, w') ->
         ((exists c, In c configs /\ cfg_id c = i) ->
          exists c, In c configs /\ cfg_id c = i
                    /\ fst (createTransport env id None s)
                       = Ok (nodemailer_createTransport (Stored c)))
         /\ ((forall c, In c configs -> cfg_id c <> i) ->
             exists e, fst (createTransport env id None s) = Throw e))
  /\ (forall d w',
         JS.as_truthy id = None ->
         getDefaultSmtpConfig env (world s) = (inr d, w') ->
         match d with
         | Some c => fst (createTransport env id None s)
                     = Ok (nodemailer_createTransport (Stored c))
         | None => exists e, fst (createTransport env id None s) = Throw e
         end).
Proof.
  split; [|split].
  - intros dc. rewrite createTransport_inline. split; reflexivity.
  - intros i configs w' Hid Hget.
    rewrite (createTransport_by_id env id i configs w' s Hid Hget).
    destruct (JS.find _ configs) as [c|] eqn:E.
    + apply find_by_id_some in E as [Hin Hc]. split.
      * intros _. exists c. auto.
      * intros Hno. exfalso. exact (Hno c Hin Hc).
    + pose proof (find_by_id_none _ _ E) as Hno. split.
      * intros (c & Hin & Hc). exfalso. exact (Hno c Hin Hc).
      * intros _. eexists. reflexivity.
  - intros d w' Hid Hget.
    rewrite (createTransport_default env id d w' s Hid Hget).
    destruct d; [reflexivity | eexists; reflexivity].
Qed.

(** The id of a stored configuration selects it. *)
Lemma createTransport_precedence_witness :
  exists c, In c [Sample.office; Sample.backup] /\ cfg_id c = "backup"
            /\ fst (createTransport Sample.healthy (Some "backup") None
                      Sample.start)
               = Ok (nodemailer_createTransport (Stored c)).
Proof.
  apply (proj1 (proj1 (proj2 (createTransport_precedence Sample.healthy
                                (Some "backup") Sample.start))
                  "backup" [Sample.office; Sample.backup] 0%nat
                  eq_refl eq_refl)).
  exists Sample.backup. split; [right; left; reflexivity | reflexivity].
Defined.

(** The four situations of the specification: inline beats id beats
    default, and without any of them resolution fails. *)
Example createTransport_order :
  fst (createTransport Sample.healthy (Some "backup") (Some Sample.inline)
         Sample.start)
    = Ok (nodemailer_createTransport (Dynamic Sample.inline))
  /\ fst (createTransport Sample.healthy (Some "backup") None Sample.start)
     = Ok (nodemailer_createTransport (Stored Sample.backup))
  /\ fst (createTransport Sample.healthy None None Sample.start)
     = Ok (nodemailer_createTransport (Stored Sample.office))
  /\ fst (createTransport Sample.no_default None None Sample.start)
     = Throw undefined_host_error
  /\ fst (createTransport Sample.healthy (Some "nowhere") None Sample.start)
     = Throw (JsError "Error" "SMTP configuration with ID nowhere not found").
Proof. repeat split. Qed.

(** ** Runs of asynchronous code *)

Section RunFacts.
Context {W : Type}.

Lemma bind_ok {A B} (m : M W A) (k : A -> M W B) s a s' :
  m s = (Ok a, s') -> bind m k s = k a s'.
Proof. unfold bind. now intros ->. Qed.

Lemma bind_throw {A B} (m : M W A) (k : A -> M W B) s e s' :
  m s = (Throw e, s') -> bind m k s = (Throw e, s').
Proof. unfold bind. now intros ->. Qed.

Lemma bind_out_of_fuel {A B} (m : M W A) (k : A -> M W B) s s' :
  m s = (OutOfFuel, s') -> bind m k s = (OutOfFuel, s').
Proof. unfold bind. now intros ->. Qed.

Lemma try_catch_ok {A} (m : M W A) h s a s' :
  m s = (Ok a, s') -> try_catch m h s = (Ok a, s').
Proof. unfold try_catch. now intros ->. Qed.

Lemma try_catch_throw {A} (m : M W A) h s e s' :
  m s = (Throw e, s') -> try_catch m h s = h e s'.
Proof. unfold try_catch. now intros ->. Qed.

Variable P : Event -> bool.

Lemma keeps_ret {A} (a : A) : keeps P (ret a : M W A).
Proof. intros s. simpl. split; [discriminate | reflexivity]. Qed.

Lemma keeps_throw {A} (e : Exn) : keeps P (throw e : M W A).
Proof. intros s. simpl. split; [discriminate | reflexivity]. Qed.

Lemma keeps_call {A} (c : Answer W A) : keeps P (call c).
Proof.
  intros s. unfold call. destruct (c (world s)) as [[e|a] w']; simpl;
    (split; [discriminate | reflexivity]).
Qed.

Lemma keeps_emit (ev : Event) : P ev = false -> keeps P (emit ev : M W unit).
Proof.
  intros H s. unfold emit. simpl. split; [discriminate|].
  rewrite List.filter_app. simpl. rewrite H. apply app_nil_r.
Qed.

Lemma keeps_bind {A B} (m : M W A) (k : A -> M W B) :
  keeps P m -> (forall a, keeps P (k a)) -> keeps P (bind m k).
Proof.
  intros Hm Hk s. unfold bind. specialize (Hm s).
  destruct (m s) as [[a|e|] s1]; simpl in *.
  - destruct (Hk a s1) as [H1 H2]. destruct Hm as [_ Hm].
    split; [exact H1 | congruence].
  - destruct Hm as [_ Hm]. split; [discriminate | exact Hm].
  - destruct Hm as [Hm _]. contradiction.
Qed.

Lemma keeps_try_catch {A} (m : M W A) (h : Exn -> M W A) :
  keeps P m -> (forall e, keeps P (h e)) -> keeps P (try_catch m h).
Proof.
  intros Hm Hh s. unfold try_catch. specialize (Hm s).
  destruct (m s) as [[a|e|] s1]; simpl in *.
  - destruct Hm as [_ Hm]. split; [discriminate | exact Hm].
  - destruct (Hh e s1) as [H1 H2]. destruct Hm as [_ Hm].
    split; [exact H1 | congruence].
  - destruct Hm as [Hm _]. contradiction.
Qed.

Lemma keeps_for_each {A} (xs : list A) (f : A -> M W unit) :
  (forall x, keeps P (f x)) -> keeps P (for_each xs f).
Proof.
  intros Hf. induction xs as [|x xs IH]; simpl.
  - apply keeps_ret.
  - apply keeps_bind; [apply Hf | intros _; exact IH].
Qed.
End RunFacts.

Lemma is_sched_blind : blind_to_io is_sched.
Proof. repeat split. Qed.

Lemma is_log_blind : blind_to_io is_log.
Proof. repeat split. Qed.

Ltac keeps_step :=
  match goal with
  | |- keeps _ (bind _ _) => apply keeps_bind; [|intros ?]
  | |- keeps _ (ret _) => apply keeps_ret
  | |- keeps _ (throw _) => apply keeps_throw
  | |- keeps _ (call _) => apply keeps_call
  | |- keeps _ (emit _) => apply keeps_emit; solve [auto]
  | |- keeps _ (for_each _ _) => apply keeps_for_each; intros ?
  | |- keeps _ (match ?x with _ => _ end) => destruct x
  | |- keeps _ (if ?x then _ else _) => destruct x
  end.

Section SendFacts.
Context {W : Type} (env : Env W).
Variable P : Event -> bool.
Hypothesis P_blind : blind_to_io P.

Lemma keeps_timestamp : keeps P (timestamp env).
Proof. intros s. simpl. split; [discriminate | reflexivity]. Qed.

Lemma keeps_deliver t m : keeps P (deliver env t m).
Proof.
  destruct P_blind as (_ & _ & _ & H). unfold deliver.
  repeat keeps_step.
Qed.

Lemma keeps_createTransport id dc : keeps P (createTransport env id dc).
Proof.
  destruct P_blind as (H & _). unfold createTransport, console_log.
  repeat keeps_step.
Qed.

Lemma keeps_generateEmailContent tid td subj b :
  keeps P (generateEmailContent env tid td subj b).
Proof.
  destruct P_blind as (_ & H & _).
  unfold generateEmailContent, console_warn.
  repeat keeps_step.
Qed.

Lemma keeps_compose_mail data t cfg : keeps P (compose_mail env data t cfg).
Proof.
  unfold compose_mail.
  apply keeps_bind; [apply keeps_generateEmailContent | intros c].
  repeat keeps_step.
Qed.

Lemma keeps_sendEmail_prepare data id :
  keeps P (sendEmail_prepare env data id).
Proof.
  unfold sendEmail_prepare.
  apply keeps_bind; [apply keeps_createTransport | intros t].
  apply keeps_bind; [unfold resolve_smtpConfig; repeat keeps_step | intros r].
  destruct r as [early|[cfg|]]; try apply keeps_ret.
  apply keeps_bind; [apply keeps_compose_mail | intros p; apply keeps_ret].
Qed.

(** With [P] blind to the log entries too, a whole [sendEmail] adds
    nothing that [P] selects, and it comes to an end. *)
Hypothesis P_log : forall e b, P (EvLogEmailActivity e b) = false.

Lemma keeps_log_activity e : keeps P (log_activity env e).
Proof.
  intros s. unfold log_activity.
  destruct (logEmailActivity env e (world s)) as [[err|u] w']; simpl;
    (split; [discriminate|]);
    rewrite List.filter_app; simpl; rewrite P_log; apply app_nil_r.
Qed.

Lemma keeps_sendEmail data id : keeps P (sendEmail env data id).
Proof.
  destruct P_blind as (_ & _ & Hfile & _).
  unfold sendEmail. apply keeps_try_catch.
  - unfold sendEmail_try.
    apply keeps_bind; [apply keeps_sendEmail_prepare | intros [early|p]].
    + apply keeps_ret.
    + apply keeps_bind; [apply keeps_deliver | intros mid].
      apply keeps_bind; [|intros _; apply keeps_ret].
      unfold log_delivered. apply keeps_for_each. intros r.
      apply keeps_bind; [apply keeps_timestamp | intros ts].
      apply keeps_log_activity.
  - intros e. unfold sendEmail_catch, logToFile.
    apply keeps_bind; [apply keeps_emit, Hfile | intros _].
    apply keeps_bind; [|intros _; apply keeps_ret].
    apply keeps_for_each. intros r.
    apply keeps_bind; [apply keeps_timestamp | intros ts].
    apply keeps_log_activity.
Qed.
End SendFacts.

(** ** Single-Send Operation *)

Section SingleSendFacts.
Context {W : Type} (env : Env W).

Lemma for_each_ok {A} (xs : list A) (f : A -> M W unit) :
  (forall x s, exists s', f x s = (Ok tt, s')) ->
  forall s, exists s', for_each xs f s = (Ok tt, s').
Proof.
  intros Hf. induction xs as [|x xs IH]; intros s; simpl.
  - eexists. reflexivity.
  - destruct (Hf x s) as [s1 H1]. rewrite (bind_ok _ _ _ _ _ H1). apply IH.
Qed.

Lemma log_activity_ok (P : EmailLogEntry -> bool) e s :
  log_returns env P -> P e = true ->
  exists s', log_activity env e s = (Ok tt, s').
Proof.
  intros Hlog HP. destruct (Hlog e (world s) HP) as [w' Hw].
  unfold log_activity. rewrite Hw. eexists. reflexivity.
Qed.

(** The [try] block comes to an end. *)
Lemma sendEmail_try_ends data id s :
  fst (sendEmail_try env data id s) <> OutOfFuel.
Proof.
  assert (keeps is_sched (sendEmail_try env data id)) as H.
  { unfold sendEmail_try.
    apply keeps_bind;
      [apply keeps_sendEmail_prepare, is_sched_blind | intros [early|p]].
    - apply keeps_ret.
    - apply keeps_bind; [apply keeps_deliver, is_sched_blind | intros mid].
      apply keeps_bind; [|intros _; apply keeps_ret].
      unfold log_delivered. apply keeps_for_each. intros r.
      apply keeps_bind; [apply keeps_timestamp | intros ts].
      apply keeps_log_activity. reflexivity. }
  apply H.
Qed.

(** The [catch] block returns the failure result when its log writes
    return. *)
Lemma sendEmail_catch_ok data id e s :
  log_returns env (fun e => negb (log_success e)) ->
  exists s', sendEmail_catch env data id e s
             = (Ok {| success := false;
                      message := Some (send_error_message e) |}, s').
Proof.
  intros Hlog. unfold sendEmail_catch, logToFile.
  erewrite bind_ok by reflexivity.
  edestruct (for_each_ok (as_array (to data))) as [s1 H1];
    [|erewrite bind_ok by exact H1; eexists; reflexivity].
  intros r s0. unfold timestamp. erewrite bind_ok by reflexivity.
  eapply log_activity_ok; [exact Hlog | reflexivity].
Qed.

(** The loop that logs a delivered message returns when its log writes
    return. *)
Lemma log_delivered_ok data p mid s :
  log_returns env log_success ->
  exists s', log_delivered env data p mid s = (Ok tt, s').
Proof.
  intros Hlog. unfold log_delivered. apply for_each_ok.
  intros r s0. unfold timestamp. erewrite bind_ok by reflexivity.
  eapply log_activity_ok; [exact Hlog | reflexivity].
Qed.
End SingleSendFacts.

(** C4, as amended. When the log writes of the failure handler return,
    [sendEmail] returns a result and never raises: whatever the [try]
    block throws (a store that is unavailable, a failed resolution of the
    transport, a failed delivery, a failed log write after a delivery) is
    turned into [{success: false, message: <error text>}]. *)
Theorem sendEmail_never_raises_when_failure_log_written {W} (env : Env W)
    (data : EmailData) (id : option string) (s : State W) :
  log_returns env (fun e => negb (log_success e)) ->
  exists r s',
    sendEmail env data id s = (Ok r, s')
    /\ (forall e s1,
           sendEmail_try env data id s = (Throw e, s1) ->
           r = {| success := false; message := Some (send_error_message e) |}).
Proof.
  intros Hlog. unfold sendEmail.
  pose proof (sendEmail_try_ends env data id s) as Hend.
  destruct (sendEmail_try env data id s) as [[r|e|] s1] eqn:E.
  - exists r, s1. split; [now apply try_catch_ok | discriminate].
  - destruct (sendEmail_catch_ok env data id e s1 Hlog) as [s2 H2].
    eexists _, s2. split.
    + rewrite (try_catch_throw _ _ _ _ _ E). exact H2.
    + intros e' s1' H. inversion H; subst. reflexivity.
  - contradiction.
Qed.

(** A rejected delivery, with a log store that works, is a failure
    result. *)
Lemma sendEmail_never_raises_witness :
  exists r s',
    sendEmail Sample.rejecting (Sample.request (One Sample.ann) None) None
      Sample.start = (Ok r, s')
    /\ (forall e s1,
           sendEmail_try Sample.rejecting (Sample.request (One Sample.ann) None)
             None Sample.start = (Throw e, s1) ->
           r = {| success := false; message := Some (send_error_message e) |}).
Proof.
  apply (sendEmail_never_raises_when_failure_log_written Sample.rejecting).
  intros e w _. exists (S w). reflexivity.
Defined.

(** C4, as stated, fails: when the delivery fails and the log write of the
    failure handler fails too, [sendEmail] raises the logging error. *)
Lemma sendEmail_raises_when_failure_log_fails :
  fst (sendEmail Sample.offline (Sample.request (One Sample.ann) None) None
         Sample.start)
  = Throw (JsError "Error" "log store unavailable").
Proof. vm_compute. reflexivity. Qed.

(** C5, as amended. After a successful delivery [sendEmail] returns
    [{success: true}] with the message id when the log writes for the
    delivered message return; when one of them throws, the failure
    handler takes over with the logging error. *)
Theorem sendEmail_success_needs_log_writes {W} (env : Env W)
    (data : EmailData) (id : option string) (s s1 s2 : State W)
    (p : Prepared) (mid : string) :
  sendEmail_prepare env data id s = (Ok (inr p), s1) ->
  deliver env (p_transport p) (p_mailOptions p) s1 = (Ok mid, s2) ->
  (log_returns env log_success ->
   exists s', sendEmail env data id s
              = (Ok {| success := true; message := Some (sent_message mid) |},
                 s'))
  /\ (forall e s3,
         log_delivered env data p mid s2 = (Throw e, s3) ->
         sendEmail env data id s = sendEmail_catch env data id e s3).
Proof.
  intros Hprep Hdel. split.
  - intros Hlog. destruct (log_delivered_ok env data p mid s2 Hlog) as [s3 H3].
    exists s3. unfold sendEmail. apply try_catch_ok.
    unfold sendEmail_try.
    rewrite (bind_ok _ _ _ _ _ Hprep), (bind_ok _ _ _ _ _ Hdel),
      (bind_ok _ _ _ _ _ H3).
    reflexivity.
  - intros e s3 H3. unfold sendEmail. apply try_catch_throw.
    unfold sendEmail_try.
    rewrite (bind_ok _ _ _ _ _ Hprep), (bind_ok _ _ _ _ _ Hdel).
    apply (bind_throw _ _ _ _ _ H3).
Qed.

(** A delivery followed by log writes that return. *)
Lemma sendEmail_success_witness :
  exists s',
    sendEmail Sample.healthy (Sample.request (One Sample.ann) None) None
      Sample.start
    = (Ok {| success := true; message := Some (sent_message "MID1") |}, s').
Proof.
  eapply (proj1 (sendEmail_success_needs_log_writes Sample.healthy
                   (Sample.request (One Sample.ann) None) None Sample.start
                   _ _ _ "MID1" eq_refl eq_refl)).
  intros e w _. exists (S w). reflexivity.
Defined.

(** C5, as stated, fails: the transport accepts the message, the first
    log write fails, and [sendEmail] reports the send as failed. *)
Lemma log_failure_turns_delivery_into_failure :
  sent_mails (trace (snd (sendEmail Sample.log_hiccup
                            (Sample.request (One Sample.ann) None) None
                            Sample.start)))
  = [ {| mail_from := "relay@office.example";
         mail_to := One (quoted_address "Ann" "ann@x.com");
         mail_subject := "S"; mail_html := "B";
         mail_cc := None; mail_bcc := None |} ]
  /\ sendMail Sample.log_hiccup
       (nodemailer_createTransport (Stored Sample.office))
       {| mail_from := "relay@office.example";
          mail_to := One (quoted_address "Ann" "ann@x.com");
          mail_subject := "S"; mail_html := "B";
          mail_cc := None; mail_bcc := None |} 0%nat
     = (inr "MID1", 0%nat)
  /\ fst (sendEmail Sample.log_hiccup (Sample.request (One Sample.ann) None)
            None Sample.start)
     = Ok {| success := false; message := Some "log store unavailable" |}.
Proof. repeat split. Qed.

(** With the log store down, the logging error of the failure handler
    reaches the caller although the message was delivered. *)
Example delivered_and_raised :
  map mail_subject
    (sent_mails (trace (snd (sendEmail Sample.log_down
                               (Sample.request (One Sample.ann) None) None
                               Sample.start)))) = ["S"]
  /\ fst (sendEmail Sample.log_down (Sample.request (One Sample.ann) None)
            None Sample.start)
     = Throw (JsError "Error" "log store unavailable").
Proof. split; vm_compute; reflexivity. Qed.

(** The end-to-end example of the specification: one recipient, no
    template, a transport that answers [MID1]. *)
Example sendEmail_end_to_end :
  fst (sendEmail Sample.healthy (Sample.request (Many [Sample.bob]) None) None
         Sample.start)
  = Ok {| success := true; message := Some "Message sent: MID1" |}
  /\ map (fun e => (log_recipient e, log_success e, log_message e))
       (written_entries
          (trace (snd (sendEmail Sample.healthy
                         (Sample.request (Many [Sample.bob]) None) None
                         Sample.start))))
     = [("bob@x.com", true, "Message sent: MID1")].
Proof. split; vm_compute; reflexivity. Qed.

(** ** Missing templates *)





(** ** The subject of log entries *)

(** C9. A request renders the template [welcome] and the transport rejects
    the message: the message handed to the transport has the rendered
    subject, and the entry written for the failed attempt has the literal
    subject of the request. *)
Theorem failed_send_logs_raw_subject :
  map mail_subject
    (sent_mails (trace (snd (sendEmail Sample.rejecting
                               (Sample.request (One Sample.ann)
                                  (Some "welcome")) None Sample.start))))
  = ["Hi Ann"]
  /\ map (fun e => (log_subject e, log_success e))
       (written_entries
          (trace (snd (sendEmail Sample.rejecting
                         (Sample.request (One Sample.ann) (Some "welcome"))
                         None Sample.start))))
     = [("S", false)]
  /\ map (fun e => (log_subject e, log_success e))
       (written_entries
          (trace (snd (sendEmail Sample.healthy
                         (Sample.request (One Sample.ann) (Some "welcome"))
                         None Sample.start))))
     = [("Hi Ann", true)].
Proof. repeat split; vm_compute; reflexivity. Qed.

(** ** Bulk-Send Orchestrator *)

Section ChunkFacts.
Context {A : Type}.
Implicit Types l : list A.

Lemma chunks_go_fuel (size f1 f2 : nat) l :
  (0 < size)%nat -> (length l <= f1)%nat -> (length l <= f2)%nat ->
  chunks_go f1 size l = chunks_go f2 size l.
Proof.
  intros Hs. revert f2 l. induction f1 as [|f1 IH]; intros f2 l H1 H2.
  - destruct l; simpl in H1; [|lia]. destruct f2; reflexivity.
  - destruct f2 as [|f2].
    + destruct l; simpl in H2; [reflexivity | lia].
    + destruct l as [|x l]; [reflexivity|]. simpl chunks_go. f_equal.
      apply IH; rewrite length_skipn; simpl in *; lia.
Qed.

(** The first batch and the batches of the rest. *)
Lemma chunks_step (size : nat) l :
  (0 < size)%nat -> l <> [] ->
  chunks size l = firstn size l :: chunks size (skipn size l).
Proof.
  intros Hs Hl. unfold chunks. destruct l as [|x l]; [contradiction|].
  simpl chunks_go. f_equal.
  apply chunks_go_fuel; [exact Hs | | lia].
  rewrite length_skipn. simpl. lia.
Qed.

Lemma chunks_nil (size : nat) : chunks size ([] : list A) = [].
Proof. reflexivity. Qed.





(** [slice(i, i + size)] is the next batch. *)
Lemma slice_batch l (i size : Z) :
  0 <= i -> 0 < size ->
  JS.slice l i (i + size)
  = firstn (Z.to_nat size) (skipn (Z.to_nat i) l).
Proof.
  intros Hi Hs. unfold JS.slice, JS.clamp_index.
  destruct (Z.ltb_spec i 0); [lia|].
  destruct (Z.ltb_spec (i + size) 0); [lia|].
  set (n := Z.of_nat (length l)).
  destruct (Z.le_gt_cases n i) as [Hge|Hlt].
  - rewrite !Z.min_r by lia. rewrite skipn_all2 by lia.
    rewrite skipn_all2 by lia. now rewrite !firstn_nil.
  - rewrite (Z.min_l i n) by lia.
    destruct (Z.le_gt_cases (i + size) n).
    + rewrite Z.min_l by lia. f_equal. lia.
    + rewrite Z.min_r by lia.
      rewrite !firstn_all2; [reflexivity | |];
        rewrite length_skipn; lia.
Qed.

Lemma slice_empty l (i : Z) : JS.slice l i (i + 0) = [].
Proof.
  unfold JS.slice. rewrite Z.add_0_r, Z.sub_diag. reflexivity.
Qed.
End ChunkFacts.

Lemma schedule_step (delay : Z) b (rest : list (list EmailRecipient)) :
  schedule delay (b :: rest)
  = EvBatch b :: (match rest with
                  | [] => []
                  | _ :: _ => [EvDelay delay]
                  end ++ schedule delay rest)%list.
Proof. destruct rest; reflexivity. Qed.

Section TallyFacts.

Lemma Tallied_app rs1 rs2 t1 t2 t3 :
  Tallied rs1 t1 t2 -> Tallied rs2 t2 t3 -> Tallied (rs1 ++ rs2) t1 t3.
Proof.
  intros H1 H2. induction H1; simpl.
  - exact H2.
  - apply tallied_sent. auto.
  - eapply tallied_failed. auto.
Qed.

(** The counts add up, and the failures carry addresses of the list in
    its order. *)
Lemma Tallied_counts rs t t' :
  Tallied rs t t' ->
  fst t' + Z.of_nat (length (snd t'))
  = fst t + Z.of_nat (length (snd t)) + Z.of_nat (length rs)
  /\ fst t <= fst t'
  /\ exists added,
       snd t' = (snd t ++ added)%list
       /\ sublist (map failure_email added) (map email rs).
Proof.
  induction 1 as [t|r rs sent failed t' H IH|r rs sent failed error t' H IH];
    simpl in *.
  - repeat split; [lia | lia |]. exists []. split.
    + now rewrite app_nil_r.
    + constructor.
  - destruct IH as (IH1 & IH2 & added & IH3 & IH4).
    repeat split; [lia | lia |]. exists added. split; [exact IH3|].
    now apply sublist_cons.
  - destruct IH as (IH1 & IH2 & added & IH3 & IH4).
    rewrite length_app in IH1. simpl in IH1.
    repeat split; [lia | lia |].
    exists (mkFailure (email r) error :: added). split.
    + rewrite IH3, <- app_assoc. reflexivity.
    + simpl. now apply sublist_skip.
Qed.
End TallyFacts.

Section BulkFacts.
Context {W : Type} (env : Env W).
Variables (data : BulkEmailData) (id : option string).

(** The callback of a batch, by the outcome of its [sendEmail]. *)
Lemma bulk_send_one_outcome tally r (s : State W) :
  bulk_send_one env data id tally r s =
    match sendEmail env (bulk_emailData data r) id s with
    | (Ok res, s1) =>
        (Ok (if success res then (fst tally + 1, snd tally)
             else (fst tally,
                   (snd tally
                    ++ [mkFailure (email r)
                          (JS.or_else (message res) "Unknown error")])%list)),
         s1)
    | (Throw e, s1) =>
        (Ok (fst tally,
             (snd tally
              ++ [mkFailure (email r) (error_message e "Unknown error")])%list),
         s1)
    | (OutOfFuel, s1) => (OutOfFuel, s1)
    end.
Proof.
  unfold bulk_send_one, try_catch, bind, ret.
  destruct (sendEmail env (bulk_emailData data r) id s) as [[res|e|] s1];
    [destruct (success res)| |]; reflexivity.
Qed.

(** One recipient: the callback returns, and the tally has one more
    sent message or one more failure for that recipient. *)
Lemma bulk_send_one_run tally r (s : State W) :
  exists tally' s',
    bulk_send_one env data id tally r s = (Ok tally', s')
    /\ List.filter is_sched (trace s') = List.filter is_sched (trace s)
    /\ Tallied [r] tally tally'.
Proof.
  rewrite bulk_send_one_outcome.
  destruct (keeps_sendEmail env is_sched is_sched_blind (fun _ _ => eq_refl)
              (bulk_emailData data r) id s) as [Hend Hkeep].
  destruct tally as [sent failed].
  destruct (sendEmail env (bulk_emailData data r) id s) as [[res|e|] s1];
    simpl in *.
  - eexists _, s1. split; [reflexivity|]. split; [exact Hkeep|].
    destruct (success res).
    + apply tallied_sent, tallied_done.
    + eapply tallied_failed, tallied_done.
  - eexists _, s1. split; [reflexivity|]. split; [exact Hkeep|].
    eapply tallied_failed, tallied_done.
  - contradiction.
Qed.

(** One batch. *)
Lemma bulk_batch_run batch tally (s : State W) :
  exists tally' s',
    fold_each batch (bulk_send_one env data id) tally s = (Ok tally', s')
    /\ List.filter is_sched (trace s') = List.filter is_sched (trace s)
    /\ Tallied batch tally tally'.
Proof.
  revert tally s. induction batch as [|r batch IH]; intros tally s; simpl.
  - exists tally, s. repeat split. constructor.
  - destruct (bulk_send_one_run tally r s) as (t1 & s1 & H1 & K1 & T1).
    destruct (IH t1 s1) as (t2 & s2 & H2 & K2 & T2).
    exists t2, s2. rewrite (bind_ok _ _ _ _ _ H1). split; [exact H2|].
    split; [congruence|].
    exact (Tallied_app [r] batch _ _ _ T1 T2).
Qed.

Variables (size delay : Z).

(** The batching loop with a positive batch size: it does not throw; it
    runs out of fuel only when the fuel does not exceed the number of
    recipients left; and when it returns, every recipient from index [i]
    on has been tallied once and the loop has added the batches of the
    rest of the list, with the pauses between them, to the trace. *)
Lemma bulk_loop_run (fuel : nat) :
  0 < size ->
  forall (i : Z) (tally : Tally) (s : State W),
    0 <= i ->
    match bulk_loop env fuel data id size delay i tally s with
    | (Ok tally', s') =>
        Tallied (skipn (Z.to_nat i) (recipients data)) tally tally'
        /\ List.filter is_sched (trace s')
           = (List.filter is_sched (trace s)
              ++ schedule delay
                   (chunks (Z.to_nat size)
                      (skipn (Z.to_nat i) (recipients data))))%list
    | (Throw _, _) => False
    | (OutOfFuel, _) =>
        (fuel <= length (recipients data) - Z.to_nat i)%nat
    end.
Proof.
  intros Hsize. induction fuel as [|fuel IH]; intros i tally s Hi.
  - simpl. lia.
  - simpl bulk_loop. set (n := Z.of_nat (length (recipients data))).
    destruct (Z.ltb_spec i n) as [Hlt|Hge].
    + rewrite slice_batch by lia.
      set (rest := skipn (Z.to_nat i) (recipients data)).
      set (batch := firstn (Z.to_nat size) rest).
      erewrite bind_ok by reflexivity.
      destruct (bulk_batch_run batch tally
                  (mkState (world s) (trace s ++ [EvBatch batch])))
        as (t1 & s1 & H1 & K1 & T1).
      rewrite (bind_ok _ _ _ _ _ H1).
      assert (skipn (Z.to_nat (i + size)) (recipients data)
              = skipn (Z.to_nat size) rest) as Hskip.
      { unfold rest. rewrite skipn_skipn. f_equal. lia. }
      assert (rest <> []) as Hrest.
      { unfold rest. intros E. apply (f_equal (@length _)) in E.
        rewrite length_skipn in E. simpl in E. lia. }
      assert (exists s2,
                 (if i + size <? n then emit (EvDelay delay) else ret tt) s1
                 = (Ok tt, s2)
                 /\ List.filter is_sched (trace s2)
                    = (List.filter is_sched (trace s)
                       ++ EvBatch batch
                          :: match skipn (Z.to_nat size) rest with
                             | [] => []
                             | _ :: _ => [EvDelay delay]
                             end)%list) as (s2 & H2 & K2).
      { simpl in K1. rewrite List.filter_app in K1. simpl in K1.
        destruct (Z.ltb_spec (i + size) n) as [Hmore|Hlast].
        - eexists. split; [reflexivity|]. simpl.
          rewrite List.filter_app, K1. simpl.
          destruct (skipn (Z.to_nat size) rest) eqn:E.
          + exfalso. apply (f_equal (@length _)) in E.
            unfold rest in E. rewrite !length_skipn in E. simpl in E. lia.
          + rewrite <- app_assoc. reflexivity.
        - exists s1. split; [reflexivity|]. rewrite K1.
          rewrite skipn_all2; [reflexivity|].
          unfold rest. rewrite length_skipn. lia. }
      rewrite (bind_ok _ _ _ _ _ H2).
      specialize (IH (i + size) t1 s2 ltac:(lia)).
      destruct (bulk_loop env fuel data id size delay (i + size) t1 s2)
        as [[t3|e|] s3].
      * destruct IH as [T3 K3]. split.
        -- rewrite <- (firstn_skipn (Z.to_nat size) rest).
           apply (Tallied_app _ _ _ _ _ T1). rewrite <- Hskip. exact T3.
        -- rewrite K3, K2, Hskip.
           rewrite (chunks_step (Z.to_nat size) rest) by (lia || assumption).
           rewrite schedule_step. fold batch.
           destruct (skipn (Z.to_nat size) rest) eqn:E.
           ++ rewrite chunks_nil. simpl. now rewrite app_nil_r.
           ++ rewrite chunks_step by (lia || discriminate).
              rewrite <- app_assoc. reflexivity.
      * exact IH.
      * lia.
    + simpl. rewrite skipn_all2 by lia. split; [constructor|].
      rewrite chunks_nil. simpl. now rewrite app_nil_r.
Qed.

(** The batching loop with a batch size that is not positive never
    returns while recipients are left. *)
Lemma bulk_loop_stuck (fuel : nat) :
  size <= 0 ->
  forall (i : Z) (tally : Tally) (s : State W),
    i < Z.of_nat (length (recipients data)) ->
    fst (bulk_loop env fuel data id size delay i tally s) = OutOfFuel.
Proof.
  intros Hsize. induction fuel as [|fuel IH]; intros i tally s Hi.
  - reflexivity.
  - simpl bulk_loop.
    destruct (Z.ltb_spec i (Z.of_nat (length (recipients data)))); [|lia].
    erewrite bind_ok by reflexivity.
    destruct (bulk_batch_run (JS.slice (recipients data) i (i + size)) tally
                (mkState (world s)
                   (trace s ++ [EvBatch (JS.slice (recipients data) i
                                           (i + size))])))
      as (t1 & s1 & H1 & _).
    rewrite (bind_ok _ _ _ _ _ H1).
    destruct (i + size <? Z.of_nat (length (recipients data)));
      (erewrite bind_ok by reflexivity; apply IH; lia).
Qed.
End BulkFacts.

Section BulkResultFacts.
Context {W : Type} (env : Env W).

(** A run of [sendBulkEmails] with a positive batch size: it does not
    throw; it runs out of fuel only when the fuel does not exceed the
    number of recipients; its result is read off a tally of the whole
    recipient list, and its batches are those of the whole list. *)
Lemma sendBulkEmails_run (fuel : nat) data id (s : State W) :
  0 < default 10 (batchSize data) ->
  match sendBulkEmails env fuel data id s with
  | (Ok r, s') =>
      (exists tally,
          Tallied (recipients data) (0, []) tally
          /\ totalSent r = fst tally
          /\ failure_list r = snd tally
          /\ totalFailed r = Z.of_nat (length (snd tally))
          /\ bulk_success r = (0 <? fst tally))
      /\ List.filter is_sched (trace s')
         = (List.filter is_sched (trace s)
            ++ schedule (default 1000 (delayBetweenBatches data))
                 (chunks (Z.to_nat (default 10 (batchSize data)))
                    (recipients data)))%list
  | (Throw _, _) => False
  | (OutOfFuel, _) => (fuel <= length (recipients data))%nat
  end.
Proof.
  intros Hsize. unfold sendBulkEmails, try_catch.
  destruct (recipients data) as [|r0 rs] eqn:Erec.
  - simpl. split.
    + exists (0, []). repeat split. constructor.
    + now rewrite app_nil_r.
  - pose proof (bulk_loop_run env data id _
                  (default 1000 (delayBetweenBatches data)) fuel Hsize
                  0 (0, []) s ltac:(lia)) as Hrun.
    unfold bind.
    destruct (bulk_loop env fuel data id _ _ 0 (0, []) s)
      as [[[sent failed]|e|] s1].
    + simpl in Hrun. rewrite Erec in Hrun. destruct Hrun as [T K].
      simpl. split; [|exact K].
      exists (sent, failed). repeat split; [exact T|].
      unfold failure_list. simpl. destruct failed; reflexivity.
    + contradiction.
    + rewrite Erec in Hrun. simpl in *. lia.
Qed.

(** With a batch size that is not positive and a recipient to send to,
    [sendBulkEmails] does not return, whatever the fuel. *)
Lemma sendBulkEmails_stuck (fuel : nat) data id (s : State W) :
  default 10 (batchSize data) <= 0 -> recipients data <> [] ->
  fst (sendBulkEmails env fuel data id s) = OutOfFuel.
Proof.
  intros Hsize Hrec. unfold sendBulkEmails, try_catch.
  destruct (recipients data) as [|r0 rs] eqn:Erec; [contradiction|].
  pose proof (bulk_loop_stuck env data id _
                (default 1000 (delayBetweenBatches data)) fuel Hsize
                0 (0, []) s) as Hstuck.
  rewrite Erec in Hstuck. specialize (Hstuck ltac:(simpl; lia)).
  unfold bind.
  destruct (bulk_loop env fuel data id _ _ 0 (0, []) s) as [[t|e|] s1];
    simpl in Hstuck; try discriminate.
  reflexivity.
Qed.

(** The recipient-count invariant for a positive batch size:
    [sendBulkEmails] returns, and the sent and the failed recipients
    add up to the recipients of the request. *)
Lemma sendBulkEmails_counts (fuel : nat) data id (s : State W) :
  0 < default 10 (batchSize data) ->
  (length (recipients data) < fuel)%nat ->
  exists r s',
    sendBulkEmails env fuel data id s = (Ok r, s')
    /\ totalSent r + totalFailed r = Z.of_nat (length (recipients data))
    /\ 0 <= totalSent r.
Proof.
  intros Hsize Hfuel.
  pose proof (sendBulkEmails_run fuel data id s Hsize) as Hrun.
  destruct (sendBulkEmails env fuel data id s) as [[r|e|] s'].
  - exists r, s'. split; [reflexivity|].
    destruct Hrun as [(tally & T & Hs & _ & Hf & _) _].
    apply Tallied_counts in T as (Hsum & Hpos & _). simpl in *.
    rewrite Hs, Hf. lia.
  - contradiction.
  - lia.
Qed.
End BulkResultFacts.

(** C1. A request with one recipient and [batchSize: 0]: whatever the
    collaborators do and however long it runs, [sendBulkEmails] does not
    return a result, and it writes no log entry: every turn of the
    batching loop takes an empty batch and leaves the index where it
    was. *)
Theorem sendBulkEmails_zero_batchSize_never_returns {W} (env : Env W)
    (fuel : nat) (id : option string) (s : State W) :
  fst (sendBulkEmails env fuel
         (Sample.bulk_request [Sample.ann] (Some 0)) id s) = OutOfFuel
  /\ List.filter is_log
       (trace (snd (sendBulkEmails env fuel
                      (Sample.bulk_request [Sample.ann] (Some 0)) id s)))
     = List.filter is_log (trace s).
Proof.
  split.
  - apply sendBulkEmails_stuck; [simpl; lia | discriminate].
  - unfold sendBulkEmails, try_catch, Sample.bulk_request. simpl.
    assert (forall tally s0,
               bulk_loop env fuel
                 (Sample.bulk_request [Sample.ann] (Some 0)) id 0 1000 0
                 tally s0
               = (OutOfFuel,
                  mkState (world s0)
                    (trace s0
                     ++ concat (repeat [EvBatch []; EvDelay 1000] fuel))))
      as Hloop.
    { induction fuel as [|fuel IH]; intros tally s0.
      - simpl. rewrite app_nil_r. destruct s0; reflexivity.
      - simpl. unfold bind at 1. simpl. unfold bind at 1. simpl.
        unfold bind at 1. simpl. rewrite IH. simpl.
        rewrite (slice_empty [Sample.ann] 0), <- !app_assoc. reflexivity. }
    unfold bind. unfold Sample.bulk_request in Hloop. rewrite Hloop. simpl.
    rewrite List.filter_app.
    assert (List.filter is_log
              (concat (repeat [EvBatch []; EvDelay 1000] fuel)) = [])
      as ->.
    { clear. induction fuel; simpl; auto. }
    apply app_nil_r.
Qed.



(** The pauses of a schedule: one fewer than its batches. *)
Lemma schedule_delays (delay : Z) (batches : list (list EmailRecipient)) :
  length (List.filter (fun ev => match ev with EvDelay _ => true | _ => false end)
            (schedule delay batches))
  = (length batches - 1)%nat
  /\ length (List.filter (fun ev => match ev with EvBatch _ => true | _ => false end)
               (schedule delay batches))
     = length batches.
Proof.
  induction batches as [|b [|c rest] IH]; [split; reflexivity.. |].
  destruct IH as [IH1 IH2].
  change (schedule delay (b :: c :: rest))
    with (EvBatch b :: EvDelay delay :: schedule delay (c :: rest)).
  cbn [List.filter length]. rewrite IH1, IH2. simpl. split; lia.
Qed.



(** The example of the specification: 25 recipients with [batchSize] 10
    make three batches of 10, 10 and 5 recipients, with a pause after the
    first and after the second. *)
Example sendBulkEmails_25_by_10 :
  map (fun ev => match ev with
                 | EvBatch b => inl (length b)
                 | EvDelay ms => inr ms
                 | _ => inl 0%nat
                 end)
    (List.filter is_sched
       (trace (snd (sendBulkEmails Sample.healthy 26
                      (Sample.bulk_request (Sample.crowd 25) (Some 10)) None
                      Sample.start))))
  = [inl 10%nat; inr 1000; inl 10%nat; inr 1000; inl 5%nat].
Proof. vm_compute. reflexivity. Qed.

(** ** Log entries of a bulk send *)

Lemma written_entries_app (t1 t2 : list Event) :
  written_entries (t1 ++ t2) = (written_entries t1 ++ written_entries t2)%list.
Proof. apply omap_app. Qed.

Lemma written_entries_filter (t : list Event) :
  written_entries (List.filter is_log t) = written_entries t.
Proof.
  induction t as [|ev t IH]; [reflexivity|].
  destruct ev; simpl; try exact IH.
  unfold written_entries in *. simpl. now rewrite IH.
Qed.

Lemma keeps_written {W A} (m : M W A) (s : State W) :
  keeps is_log m ->
  written_entries (trace (snd (m s))) = written_entries (trace s).
Proof.
  intros H. destruct (H s) as [_ K].
  now rewrite <- written_entries_filter, K, written_entries_filter.
Qed.

Section LogFacts.
Context {W : Type} (env : Env W).
Hypothesis configs_stable : stable (getSmtpConfigs env).
Hypothesis default_stable : stable (getDefaultSmtpConfig env).

(** With stores that answer the same twice, the second look at the
    configuration finds what [createTransport] has found. *)
Lemma resolve_after_createTransport data id t (s s0 : State W) :
  createTransport env id (smtpConfig data) s = (Ok t, s0) ->
  match resolve_smtpConfig env data id s0 with
  | (Ok (inr (Some _)), s1) => trace s1 = trace s0
  | _ => False
  end.
Proof.
  unfold createTransport, resolve_smtpConfig. intros Et.
  destruct (smtpConfig data) as [dc|]; [reflexivity|].
  unfold bind, call, throw, ret, console_log, emit in *.
  destruct (JS.as_truthy id) as [i|].
  - pose proof (configs_stable (world s) (world s0)) as Hst.
    destruct (getSmtpConfigs env (world s)) as [[e|configs] w1];
      simpl in Et; [discriminate|].
    destruct (JS.find _ configs) as [c|] eqn:Ef; simpl in Et; [|discriminate].
    destruct (getSmtpConfigs env (world s0)) as [[e|configs'] w2];
      simpl in Hst; [discriminate|].
    injection Hst as <-. rewrite Ef. reflexivity.
  - pose proof (default_stable (world s) (world s0)) as Hst.
    destruct (getDefaultSmtpConfig env (world s)) as [[e|d] w1];
      simpl in Et; [discriminate|].
    destruct d as [c|]; simpl in Et; [|discriminate].
    destruct (getDefaultSmtpConfig env (world s0)) as [[e|d'] w2];
      simpl in Hst; [discriminate|].
    injection Hst as <-. reflexivity.
Qed.

(** So the [try] block has no early [return]. *)
Lemma sendEmail_prepare_not_early data id (s : State W) :
  match sendEmail_prepare env data id s with
  | (Ok (inl _), _) | (OutOfFuel, _) => False
  | (_, s1) => written_entries (trace s1) = written_entries (trace s)
  end.
Proof.
  pose proof (keeps_written (sendEmail_prepare env data id) s
                (keeps_sendEmail_prepare env is_log is_log_blind data id)) as K.
  pose proof (proj1 (keeps_sendEmail_prepare env is_log is_log_blind data id s))
    as Hend.
  destruct (sendEmail_prepare env data id s) as [[[early|p]|e|] s1] eqn:E;
    simpl in *; try assumption; try contradiction.
  unfold sendEmail_prepare in E.
  destruct (createTransport env id (smtpConfig data) s) as [[t|e|] s0] eqn:Et;
    [rewrite (bind_ok _ _ _ _ _ Et) in E
    |rewrite (bind_throw _ _ _ _ _ Et) in E; discriminate
    |rewrite (bind_out_of_fuel _ _ _ _ Et) in E; discriminate].
  pose proof (resolve_after_createTransport data id t s s0 Et) as Hres.
  destruct (resolve_smtpConfig env data id s0) as [[[r|[cfg|]]|e|] s2] eqn:Er;
    try contradiction.
  rewrite (bind_ok _ _ _ _ _ Er) in E. unfold bind, ret in E.
  destruct (compose_mail env data t cfg s2) as [[q|e|] s3]; discriminate.
Qed.

Hypothesis log_works : log_returns env (fun _ => true).

Lemma log_activity_written e (s : State W) :
  exists s', log_activity env e s = (Ok tt, s')
             /\ written_entries (trace s')
                = (written_entries (trace s) ++ [e])%list.
Proof.
  destruct (log_works e (world s) eq_refl) as [w' Hw].
  unfold log_activity. rewrite Hw. eexists. split; [reflexivity|].
  simpl. now rewrite written_entries_app.
Qed.

Lemma for_each_single {A} (f : A -> M W unit) x (s s' : State W) :
  f x s = (Ok tt, s') -> for_each [x] f s = (Ok tt, s').
Proof. intros H. simpl. now rewrite (bind_ok _ _ _ _ _ H). Qed.

(** One turn of a logging loop. *)
Lemma log_one_entry (mk : string -> EmailLogEntry) (s : State W) :
  exists s',
    (ts <- timestamp env ;; log_activity env (mk ts)) s = (Ok tt, s')
    /\ written_entries (trace s')
       = (written_entries (trace s) ++ [mk (now env (world s))])%list.
Proof.
  destruct (log_activity_written (mk (now env (world s))) s) as (s' & H & K).
  exists s'. split; [|exact K].
  unfold bind, timestamp. exact H.
Qed.

(** A request to one recipient: [sendEmail] returns, and it writes one
    entry, for that recipient, with the outcome it returns. *)
Lemma sendEmail_single_entry data id r0 (s : State W) :
  to data = One r0 ->
  exists res s' e,
    sendEmail env data id s = (Ok res, s')
    /\ written_entries (trace s') = (written_entries (trace s) ++ [e])%list
    /\ log_recipient e = email r0
    /\ log_success e = success res.
Proof.
  intros Hto.
  assert (forall err s1,
             exists s' e,
               sendEmail_catch env data id err s1
               = (Ok {| success := false;
                        message := Some (send_error_message err) |}, s')
               /\ written_entries (trace s')
                  = (written_entries (trace s1) ++ [e])%list
               /\ log_recipient e = email r0 /\ log_success e = false)
    as Hcatch.
  { intros err s1. unfold sendEmail_catch, logToFile. rewrite Hto.
    erewrite bind_ok by reflexivity.
    edestruct (log_one_entry) as (s2 & H2 & K2).
    erewrite bind_ok by (apply for_each_single; exact H2).
    eexists _, _. split; [reflexivity|]. split.
    - rewrite K2. cbn [trace]. rewrite written_entries_app.
      cbn [written_entries omap list_omap]. rewrite app_nil_r. reflexivity.
    - split; reflexivity. }
  unfold sendEmail.
  pose proof (sendEmail_prepare_not_early data id s) as Hprep.
  unfold sendEmail_try.
  destruct (sendEmail_prepare env data id s) as [[[early|p]|err|] s1] eqn:Ep;
    try contradiction.
  - pose proof (keeps_written (deliver env (p_transport p) (p_mailOptions p)) s1
                  (keeps_deliver env is_log is_log_blind _ _)) as Kd.
    pose proof (proj1 (keeps_deliver env is_log is_log_blind (p_transport p)
                         (p_mailOptions p) s1)) as Hd.
    destruct (deliver env (p_transport p) (p_mailOptions p) s1)
      as [[mid|err|] s2] eqn:Ed; simpl in Kd, Hd; [| |contradiction].
    + edestruct (log_one_entry) as (s3 & H3 & K3).
      eexists _, s3, _. split; [|split].
      * apply try_catch_ok.
        rewrite (bind_ok _ _ _ _ _ Ep), (bind_ok _ _ _ _ _ Ed).
        unfold log_delivered. rewrite Hto.
        erewrite bind_ok by (apply for_each_single; exact H3).
        reflexivity.
      * rewrite K3, Kd, Hprep. reflexivity.
      * split; reflexivity.
    + destruct (Hcatch err s2) as (s3 & e & H3 & K3 & R3 & S3).
      eexists _, s3, e. split.
      { erewrite try_catch_throw; [exact H3|].
        rewrite (bind_ok _ _ _ _ _ Ep). apply (bind_throw _ _ _ _ _ Ed). }
      split; [rewrite K3, Kd, Hprep; reflexivity|].
      split; [exact R3 | exact S3].
  - destruct (Hcatch err s1) as (s3 & e & H3 & K3 & R3 & S3).
    eexists _, s3, e. split.
    { erewrite try_catch_throw; [exact H3|]. apply (bind_throw _ _ _ _ _ Ep). }
    split; [rewrite K3, Hprep; reflexivity|].
    split; [exact R3 | exact S3].
Qed.

Lemma bulk_send_one_entry data id tally r (s : State W) :
  exists tally' s',
    bulk_send_one env data id tally r s = (Ok tally', s')
    /\ logged s' = (logged s ++ [email r])%list.
Proof.
  rewrite bulk_send_one_outcome.
  destruct (sendEmail_single_entry (bulk_emailData data r) id r s eq_refl)
    as (res & s' & e & H & K & R & _).
  rewrite H. eexists _, s'. split; [reflexivity|].
  unfold logged. rewrite K, map_app. simpl. now rewrite R.
Qed.

Lemma bulk_batch_entries data id batch tally (s : State W) :
  exists tally' s',
    fold_each batch (bulk_send_one env data id) tally s = (Ok tally', s')
    /\ logged s' = (logged s ++ map email batch)%list.
Proof.
  revert tally s. induction batch as [|r batch IH]; intros tally s; simpl.
  - exists tally, s. split; [reflexivity | now rewrite app_nil_r].
  - destruct (bulk_send_one_entry data id tally r s) as (t1 & s1 & H1 & K1).
    destruct (IH t1 s1) as (t2 & s2 & H2 & K2).
    exists t2, s2. rewrite (bind_ok _ _ _ _ _ H1). split; [exact H2|].
    rewrite K2, K1, <- app_assoc. reflexivity.
Qed.

Lemma bulk_loop_entries data id (size delay : Z) (fuel : nat) :
  0 < size ->
  forall (i : Z) (tally : Tally) (s : State W),
    0 <= i ->
    match bulk_loop env fuel data id size delay i tally s with
    | (Ok _, s') =>
        logged s'
        = (logged s ++ map email (skipn (Z.to_nat i) (recipients data)))%list
    | _ => True
    end.
Proof.
  intros Hsize. induction fuel as [|fuel IH]; intros i tally s Hi.
  - exact I.
  - simpl bulk_loop. set (n := Z.of_nat (length (recipients data))).
    destruct (Z.ltb_spec i n) as [Hlt|Hge].
    + rewrite slice_batch by lia.
      set (rest := skipn (Z.to_nat i) (recipients data)).
      erewrite bind_ok by reflexivity.
      destruct (bulk_batch_entries data id (firstn (Z.to_nat size) rest) tally
                  (mkState (world s)
                     (trace s ++ [EvBatch (firstn (Z.to_nat size) rest)])))
        as (t1 & s1 & H1 & K1).
      rewrite (bind_ok _ _ _ _ _ H1).
      assert (logged s1 = (logged s ++ map email (firstn (Z.to_nat size) rest))%list)
        as K1'.
      { rewrite K1. unfold logged. cbn [trace]. rewrite written_entries_app.
        cbn [written_entries omap list_omap]. now rewrite app_nil_r. }
      assert (exists s2,
                 (if i + size <? n then emit (EvDelay delay) else ret tt) s1
                 = (Ok tt, s2) /\ logged s2 = logged s1) as (s2 & H2 & K2).
      { destruct (i + size <? n); eexists; (split; [reflexivity|]); [|reflexivity].
        unfold logged. cbn [trace]. rewrite written_entries_app.
        cbn [written_entries omap list_omap]. now rewrite app_nil_r. }
      rewrite (bind_ok _ _ _ _ _ H2).
      specialize (IH (i + size) t1 s2 ltac:(lia)).
      destruct (bulk_loop env fuel data id size delay (i + size) t1 s2)
        as [[t3|e|] s3]; try exact I.
      rewrite IH, K2, K1', <- app_assoc, <- map_app. do 2 f_equal.
      replace (Z.to_nat (i + size)) with (Z.to_nat size + Z.to_nat i)%nat by lia.
      rewrite <- skipn_skipn. apply firstn_skipn.
    + simpl. rewrite skipn_all2 by lia. simpl. now rewrite app_nil_r.
Qed.

(** A bulk send with a positive batch size, stores that answer the same
    whenever asked and log writes that return: [sendBulkEmails] returns,
    the sent and the failed recipients add up to the recipients of the
    request, and the run writes one log entry per recipient. *)
Lemma sendBulkEmails_log_entries (fuel : nat) data id (s : State W) :
  0 < default 10 (batchSize data) ->
  (length (recipients data) < fuel)%nat ->
  exists r s',
    sendBulkEmails env fuel data id s = (Ok r, s')
    /\ totalSent r + totalFailed r = Z.of_nat (length (recipients data))
    /\ logged s' = (logged s ++ map email (recipients data))%list
    /\ length (written_entries (trace s'))
       = (length (written_entries (trace s)) + length (recipients data))%nat.
Proof.
  intros Hsize Hfuel.
  destruct (sendBulkEmails_counts env fuel data id s Hsize Hfuel)
    as (r & s' & Hrun & Hsum & _).
  exists r, s'. split; [exact Hrun|]. split; [exact Hsum|].
  assert (logged s' = (logged s ++ map email (recipients data))%list) as K.
  { unfold sendBulkEmails, try_catch in Hrun.
    destruct (recipients data) as [|r0 rs] eqn:Erec.
    - simpl in Hrun. injection Hrun as _ <-. simpl. now rewrite app_nil_r.
    - pose proof (bulk_loop_entries data id _
                    (default 1000 (delayBetweenBatches data)) fuel Hsize
                    0 (0, []) s ltac:(lia)) as Hloop.
      pose proof (bulk_loop_run env data id _
                    (default 1000 (delayBetweenBatches data)) fuel Hsize
                    0 (0, []) s ltac:(lia)) as Hnothrow.
      unfold bind in Hrun.
      destruct (bulk_loop env fuel data id _ _ 0 (0, []) s)
        as [[[sent failed]|e|] s1]; simpl in Hrun.
      + injection Hrun as _ <-. rewrite Hloop, Erec. reflexivity.
      + contradiction.
      + discriminate. }
  split; [exact K|].
  apply (f_equal (@length _)) in K. unfold logged in K.
  rewrite length_app, !length_map in K. exact K.
Qed.
End LogFacts.

(** A store that changes between the two looks of [sendEmail] at the
    configuration: the [try] block returns early, and no entry is written
    for the recipient, who is counted as failed. *)
Example early_return_writes_no_entry :
  fst (sendEmail Sample.vanishing (Sample.request (One Sample.ann) None)
         (Some "office") Sample.start)
  = Ok {| success := false; message := Some "SMTP configuration not found" |}
  /\ written_entries
       (trace (snd (sendEmail Sample.vanishing
                      (Sample.request (One Sample.ann) None) (Some "office")
                      Sample.start))) = []
  /\ fst (sendBulkEmails Sample.vanishing 2
            (Sample.bulk_request [Sample.ann] None) (Some "office")
            Sample.start)
     = Ok {| bulk_success := false; totalSent := 0; totalFailed := 1;
             failures := Some [mkFailure "ann@x.com"
                                 "SMTP configuration not found"];
             bulk_message := Some "Successfully sent 0 out of 1 emails" |}
  /\ written_entries
       (trace (snd (sendBulkEmails Sample.vanishing 2
                      (Sample.bulk_request [Sample.ann] None) (Some "office")
                      Sample.start))) = [].
Proof. repeat split; vm_compute; reflexivity. Qed.

(** ** What the entries of a send record *)

Section EntryFacts.
Context {W : Type} (env : Env W).

(** The entries a logging loop writes are among those it builds. *)
Lemma logging_loop_entries {A} (xs : list A)
    (mk : A -> string -> EmailLogEntry) (Q : EmailLogEntry -> Prop)
    (s : State W) :
  (forall x ts, Q (mk x ts)) ->
  exists es,
    written_entries
      (trace (snd (for_each xs
                     (fun x => ts <- timestamp env ;; log_activity env (mk x ts))
                     s)))
    = (written_entries (trace s) ++ es)%list
    /\ Forall Q es.
Proof.
  intros HQ. revert s. induction xs as [|x xs IH]; intros s.
  - exists []. simpl. split; [now rewrite app_nil_r | constructor].
  - cbn [for_each]. unfold bind at 1, bind at 1, timestamp at 1, log_activity at 1.
    destruct (logEmailActivity env (mk x (now env (world s))) (world s))
      as [[err|u] w'].
    + exists []. cbn [snd trace]. rewrite written_entries_app.
      cbn [written_entries omap list_omap]. split; [reflexivity | constructor].
    + destruct (IH (mkState w'
                      (trace s ++ [EvLogEmailActivity
                                     (mk x (now env (world s))) true])))
        as (es & K & F).
      exists (mk x (now env (world s)) :: es). split.
      * rewrite K. cbn [trace]. rewrite written_entries_app.
        cbn [written_entries omap list_omap]. now rewrite <- app_assoc.
      * constructor; [apply HQ | exact F].
Qed.

(** The entries of the failure handler record the literal subject of the
    request. *)
Lemma sendEmail_catch_entries data id err (s : State W) :
  exists es,
    written_entries (trace (snd (sendEmail_catch env data id err s)))
    = (written_entries (trace s) ++ es)%list
    /\ Forall (fun e => log_subject e = subject data /\ log_success e = false)
         es.
Proof.
  unfold sendEmail_catch, logToFile.
  unfold bind at 1. cbn [emit].
  set (s0 := mkState (world s) (trace s ++ [EvLogToFile _])).
  destruct (logging_loop_entries (as_array (to data))
              (fun recipient ts =>
                 {| log_timestamp := ts;
                    log_smtpConfig := JS.or_else id "unknown";
                    log_templateId := templateId data;
                    log_recipient := email recipient;
                    log_subject := subject data;
                    log_success := false;
                    log_message := send_error_message err |})
              (fun e => log_subject e = subject data /\ log_success e = false)
              s0 ltac:(intros; split; reflexivity)) as (es & K & F).
  exists es. split; [|exact F].
  assert (written_entries (trace s0) = written_entries (trace s)) as K0.
  { unfold s0. cbn [trace]. rewrite written_entries_app.
    cbn [written_entries omap list_omap]. now rewrite app_nil_r. }
  rewrite <- K0, <- K. unfold bind.
  destruct (for_each _ _ s0) as [[u|e|] s1]; reflexivity.
Qed.

(** The entries written after a delivery record the subject of the
    message that was delivered. *)
Lemma log_delivered_entries data p mid (s : State W) :
  exists es,
    written_entries (trace (snd (log_delivered env data p mid s)))
    = (written_entries (trace s) ++ es)%list
    /\ Forall (fun e => log_subject e = p_subject p /\ log_success e = true)
         es.
Proof.
  unfold log_delivered.
  apply (logging_loop_entries (as_array (to data))
           (fun recipient ts =>
              {| log_timestamp := ts;
                 log_smtpConfig := config_label (p_smtpConfig p);
                 log_templateId := templateId data;
                 log_recipient := email recipient;
                 log_subject := p_subject p;
                 log_success := true;
                 log_message := sent_message mid |})).
  intros; split; reflexivity.
Qed.

(** The message is composed of what [generateEmailContent] returns: its
    subject is the subject of the mail and of the log entries, and without
    images its body is the body of the mail. *)
Lemma compose_mail_content data t cfg subj b (s s1 : State W) :
  generateEmailContent env (templateId data) (templateData data)
    (subject data) (body data) s = (Ok (subj, b), s1) ->
  images data = None ->
  exists p,
    compose_mail env data t cfg s = (Ok p, s1)
    /\ p_subject p = subj
    /\ mail_subject (p_mailOptions p) = subj
    /\ mail_html (p_mailOptions p) = b.
Proof.
  intros Hgen Himg. unfold compose_mail.
  rewrite (bind_ok _ _ _ _ _ Hgen), Himg.
  eexists. split; [reflexivity|]. repeat split.
Qed.
End EntryFacts.

(** The example of the specification: of five recipients the third is
    rejected, the fourth and the fifth are still sent to, and the result
    counts four sent and one failed. *)
Example partial_failure_does_not_abort :
  fst (sendBulkEmails Sample.picky 6
         (Sample.bulk_request (Sample.crowd 5) None) None Sample.start)
  = Ok {| bulk_success := true; totalSent := 4; totalFailed := 1;
          failures := Some [mkFailure "r2@x.com" "mailbox unavailable"];
          bulk_message := Some "Successfully sent 4 out of 5 emails" |}
  /\ logged (snd (sendBulkEmails Sample.picky 6
                    (Sample.bulk_request (Sample.crowd 5) None) None
                    Sample.start))
     = ["r0@x.com"; "r1@x.com"; "r2@x.com"; "r3@x.com"; "r4@x.com"].
Proof. split; vm_compute; reflexivity. Qed.

(** * Further properties of the code *)

(** ** Template Renderer *)

Lemma occurs_tail (p : string) (c : ascii) (t : string) :
  occurs p (String c t) = false -> occurs p t = false.
Proof.
  simpl. destruct (strip_prefix p (String c t)); [discriminate | auto].
Qed.

Lemma occurs_head (p s : string) :
  occurs p s = false -> strip_prefix p s = None.
Proof.
  destruct s as [|c t]; simpl; destruct (strip_prefix p _); congruence.
Qed.

Lemma strip_prefix_append_l (p q s : string) :
  strip_prefix (p ++ q) s
  = match strip_prefix p s with
    | Some r => strip_prefix q r
    | None => None
    end.
Proof.
  revert s. induction p as [|c p IH]; intros s; simpl; [reflexivity|].
  destruct s as [|d s]; [reflexivity|].
  destruct (Ascii.eqb c d); [apply IH | reflexivity].
Qed.

Lemma occurs_append (p a b : string) : occurs p (a ++ p ++ b) = true.
Proof.
  induction a as [|c a IH].
  - destruct (p ++ b) as [|d u] eqn:E; simpl; rewrite <- E;
      rewrite strip_prefix_append; reflexivity.
  - change (String c a ++ p ++ b) with (String c (a ++ p ++ b)).
    cbn [occurs]. rewrite IH. destruct (strip_prefix p _); reflexivity.
Qed.

(** Without an opening or without a closing pair of braces nothing in
    the string matches the pattern. *)
Lemma match_token_needs_braces (s : string) :
  occurs "{{" s = false \/ occurs "}}" s = false -> match_token s = None.
Proof.
  intros H. destruct (match_token s) as [[[m k] r]|] eqn:E; [|reflexivity].
  exfalso. apply match_token_inv in E as (-> & -> & _ & _).
  assert (token k ++ r = EmptyString ++ "{{" ++ (k ++ "}}" ++ r)) as E1
    by (unfold token; now rewrite !append_assoc).
  assert (token k ++ r = ("{{" ++ k) ++ "}}" ++ r) as E2
    by (unfold token; now rewrite !append_assoc).
  destruct H as [H|H].
  - rewrite E1, occurs_append in H. discriminate.
  - rewrite E2, occurs_append in H. discriminate.
Qed.

(** X1. A pattern in which the text of two opening braces, or the text of
    two closing braces, does not occur is rendered as itself, whatever the
    substitution data hold. *)
Theorem processTemplate_without_placeholder (p : string) (d : TemplateData) :
  occurs "{{" p = false \/ occurs "}}" p = false ->
  processTemplate p d = p.
Proof.
  induction p as [|c t IH]; intros H; [reflexivity|].
  rewrite processTemplate_step, (match_token_needs_braces _ H).
  f_equal. apply IH.
  destruct H as [H|H]; [left | right]; exact (occurs_tail _ _ _ H).
Qed.

Lemma processTemplate_without_placeholder_witness :
  processTemplate "Dear customer, {your order} has shipped }}"
    (<["your order" := JStr "x"]> ∅)
  = "Dear customer, {your order} has shipped }}".
Proof.
  apply processTemplate_without_placeholder. left. vm_compute. reflexivity.
Defined.



(** ** What a run appends to the trace *)

Section AddsFacts.
Context {W : Type}.
Variable Q : Event -> Prop.

Lemma adds_ret {A} (a : A) : adds Q (ret a : M W A).
Proof. intros s. exists []. simpl. now rewrite app_nil_r. Qed.

Lemma adds_throw {A} (e : Exn) : adds Q (throw e : M W A).
Proof. intros s. exists []. simpl. now rewrite app_nil_r. Qed.

Lemma adds_call {A} (c : Answer W A) : adds Q (call c).
Proof.
  intros s. exists []. unfold call.
  destruct (c (world s)) as [[e|a] w']; simpl; now rewrite app_nil_r.
Qed.

Lemma adds_emit (ev : Event) : Q ev -> adds Q (emit ev : M W unit).
Proof. intros H s. exists [ev]. simpl. auto. Qed.

Lemma adds_bind {A B} (m : M W A) (k : A -> M W B) :
  adds Q m -> (forall a, adds Q (k a)) -> adds Q (bind m k).
Proof.
  intros Hm Hk s. unfold bind. destruct (Hm s) as (e1 & T1 & F1).
  destruct (m s) as [[a|e|] s1]; simpl in *; [|eauto..].
  destruct (Hk a s1) as (e2 & T2 & F2).
  exists (e1 ++ e2)%list. rewrite T2, T1, app_assoc. split; [reflexivity|].
  apply Forall_app. auto.
Qed.

Lemma adds_try_catch {A} (m : M W A) (h : Exn -> M W A) :
  adds Q m -> (forall e, adds Q (h e)) -> adds Q (try_catch m h).
Proof.
  intros Hm Hh s. unfold try_catch. destruct (Hm s) as (e1 & T1 & F1).
  destruct (m s) as [[a|e|] s1]; simpl in *; [eauto| |eauto].
  destruct (Hh e s1) as (e2 & T2 & F2).
  exists (e1 ++ e2)%list. rewrite T2, T1, app_assoc. split; [reflexivity|].
  apply Forall_app. auto.
Qed.

Lemma adds_for_each {A} (xs : list A) (f : A -> M W unit) :
  (forall x, adds Q (f x)) -> adds Q (for_each xs f).
Proof.
  intros Hf. induction xs as [|x xs IH]; simpl.
  - apply adds_ret.
  - apply adds_bind; [apply Hf | intros _; exact IH].
Qed.

Lemma adds_fold_each {A S} (xs : list A) (f : S -> A -> M W S) acc :
  (forall a x, In x xs -> adds Q (f a x)) -> adds Q (fold_each xs f acc).
Proof.
  revert acc. induction xs as [|x xs IH]; intros acc Hf; simpl.
  - apply adds_ret.
  - apply adds_bind; [apply Hf; now left | intros a; apply IH].
    intros a' x' Hin. apply Hf. now right.
Qed.

Lemma adds_weaken {A} (Q' : Event -> Prop) (m : M W A) :
  (forall ev, Q' ev -> Q ev) -> adds Q' m -> adds Q m.
Proof.
  intros HQ Hm s. destruct (Hm s) as (evs & T & F).
  exists evs. split; [exact T|]. eapply Forall_impl; eauto.
Qed.
End AddsFacts.

(** Follows the first step of a run that is known to return. *)
Ltac bind_inv H a s' :=
  let E := fresh "E" a in
  match type of H with
  | bind ?m ?k ?st = (Ok _, _) =>
      destruct (m st) as [[a|?e|] s'] eqn:E;
      [ rewrite (bind_ok _ _ _ _ _ E) in H
      | rewrite (bind_throw _ _ _ _ _ E) in H; discriminate H
      | rewrite (bind_out_of_fuel _ _ _ _ E) in H; discriminate H ]
  end.

Ltac adds_step :=
  match goal with
  | |- adds _ (bind _ _) => apply adds_bind; [|intros ?]
  | |- adds _ (ret _) => apply adds_ret
  | |- adds _ (throw _) => apply adds_throw
  | |- adds _ (call _) => apply adds_call
  | |- adds _ (emit _) => apply adds_emit; exact I
  | |- adds _ (match ?x with _ => _ end) => destruct x
  | |- adds _ (if ?x then _ else _) => destruct x
  end.

Lemma sent_mails_app (t1 t2 : list Event) :
  sent_mails (t1 ++ t2) = (sent_mails t1 ++ sent_mails t2)%list.
Proof. apply omap_app. Qed.

Lemma sent_mails_no_delivery (evs : list Event) :
  Forall no_delivery evs -> sent_mails evs = [].
Proof.
  induction 1 as [|ev evs H _ IH]; [reflexivity|].
  destruct ev; simpl in *; try exact IH. contradiction.
Qed.

Lemma adds_no_delivery {W A} (m : M W A) (s : State W) :
  adds no_delivery m ->
  sent_mails (trace (snd (m s))) = sent_mails (trace s).
Proof.
  intros H. destruct (H s) as (evs & T & F).
  rewrite T, sent_mails_app, (sent_mails_no_delivery _ F). apply app_nil_r.
Qed.

Section DeliveryFacts.
Context {W : Type} (env : Env W).

Lemma createTransport_no_delivery id dc :
  adds no_delivery (createTransport env id dc).
Proof. unfold createTransport, console_log. repeat adds_step. Qed.

Lemma generateEmailContent_no_delivery tid td subj b :
  adds no_delivery (generateEmailContent env tid td subj b).
Proof. unfold generateEmailContent, console_warn. repeat adds_step. Qed.

Lemma sendEmail_prepare_no_delivery data id :
  adds no_delivery (sendEmail_prepare env data id).
Proof.
  unfold sendEmail_prepare.
  apply adds_bind; [apply createTransport_no_delivery | intros t].
  apply adds_bind; [unfold resolve_smtpConfig; repeat adds_step | intros r].
  destruct r as [early|[cfg|]]; try apply adds_ret.
  apply adds_bind; [|intros p; apply adds_ret].
  unfold compose_mail.
  apply adds_bind; [apply generateEmailContent_no_delivery | intros c].
  repeat adds_step.
Qed.

Lemma log_activity_no_delivery e : adds no_delivery (log_activity env e).
Proof.
  intros s. unfold log_activity.
  destruct (logEmailActivity env e (world s)) as [[err|u] w'];
    eexists [_]; simpl; (split; [reflexivity|]); repeat constructor.
Qed.

Lemma logging_loop_no_delivery {A} (xs : list A)
    (mk : A -> string -> EmailLogEntry) :
  adds no_delivery
    (for_each xs (fun x => ts <- timestamp env ;; log_activity env (mk x ts))).
Proof.
  apply adds_for_each. intros x. apply adds_bind.
  - intros s. exists []. simpl. now rewrite app_nil_r.
  - intros ts. apply log_activity_no_delivery.
Qed.

Lemma sendEmail_catch_no_delivery data id e :
  adds no_delivery (sendEmail_catch env data id e).
Proof.
  unfold sendEmail_catch, logToFile.
  apply adds_bind; [apply adds_emit; exact I | intros _].
  apply adds_bind; [apply logging_loop_no_delivery | intros _; apply adds_ret].
Qed.

(** The fields of the message that do not depend on any collaborator. *)
Lemma prepared_addresses data id p (s s1 : State W) :
  sendEmail_prepare env data id s = (Ok (inr p), s1) ->
  mail_to (p_mailOptions p) = formatRecipients (to data)
  /\ mail_cc (p_mailOptions p)
     = option_map (fun l => formatRecipients (Many l)) (cc data)
  /\ mail_bcc (p_mailOptions p)
     = option_map (fun l => formatRecipients (Many l)) (bcc data)
  /\ mail_subject (p_mailOptions p) = p_subject p.
Proof.
  unfold sendEmail_prepare. intros H.
  bind_inv H t s0. bind_inv H r s2.
  destruct r as [r|[cfg|]]; try discriminate.
  bind_inv H q s3. unfold compose_mail in Eq.
  bind_inv Eq c s4. bind_inv Eq b s5.
  injection Eq as <- _. injection H as <- _. repeat split.
Qed.

Lemma deliver_sent t m (s : State W) :
  sent_mails (trace (snd (deliver env t m s)))
  = (sent_mails (trace s) ++ [m])%list
  /\ fst (deliver env t m s) <> OutOfFuel.
Proof.
  unfold deliver, bind, emit, call. cbn [world trace].
  destruct (sendMail env t m (world s)) as [[e|a] w']; cbn [snd fst trace];
    rewrite sent_mails_app; split; (reflexivity || discriminate).
Qed.

Lemma log_delivered_quiet data p mid (s : State W) :
  sent_mails (trace (snd (log_delivered env data p mid s)))
  = sent_mails (trace s)
  /\ fst (log_delivered env data p mid s) <> OutOfFuel.
Proof.
  split.
  - apply adds_no_delivery. unfold log_delivered.
    apply logging_loop_no_delivery.
  - unfold log_delivered. apply (keeps_for_each is_sched). intros r.
    apply keeps_bind; [apply keeps_timestamp | intros ts].
    apply keeps_log_activity. reflexivity.
Qed.
End DeliveryFacts.

(** What one [sendEmail] hands to the transport. *)
Lemma sendEmail_sent {W} (env : Env W) (data : EmailData)
    (id : option string) (s : State W) :
  sent_mails (trace (snd (sendEmail env data id s)))
  = (sent_mails (trace s)
     ++ match sendEmail_prepare env data id s with
        | (Ok (inr p), _) => [p_mailOptions p]
        | _ => []
        end)%list.
Proof.
  pose proof (adds_no_delivery (sendEmail_prepare env data id) s
                (sendEmail_prepare_no_delivery env data id)) as Kp.
  pose proof (proj1 (keeps_sendEmail_prepare env is_sched is_sched_blind
                       data id s)) as Hend.
  assert (forall e s1, sent_mails (trace (snd (sendEmail_catch env data id e s1)))
                       = sent_mails (trace s1)) as Kc
    by (intros; apply adds_no_delivery, sendEmail_catch_no_delivery).
  unfold sendEmail, sendEmail_try.
  destruct (sendEmail_prepare env data id s) as [[[early|p]|e|] s1] eqn:Ep;
    simpl in Kp, Hend; [| | |contradiction].
  - rewrite (try_catch_ok _ _ _ early s1), app_nil_r;
      [exact Kp | now rewrite (bind_ok _ _ _ _ _ Ep)].
  - destruct (deliver_sent env (p_transport p) (p_mailOptions p) s1)
      as [Kd Hd].
    destruct (deliver env (p_transport p) (p_mailOptions p) s1)
      as [[mid|e|] s2] eqn:Ed; simpl in Kd, Hd; [| |contradiction].
    + destruct (log_delivered_quiet env data p mid s2) as [Kl Hl].
      destruct (log_delivered env data p mid s2) as [[u|e|] s3] eqn:El;
        simpl in Kl, Hl; [| |contradiction].
      * erewrite try_catch_ok;
          [|rewrite (bind_ok _ _ _ _ _ Ep), (bind_ok _ _ _ _ _ Ed),
              (bind_ok _ _ _ _ _ El); reflexivity].
        simpl. rewrite Kl, Kd, Kp. reflexivity.
      * erewrite try_catch_throw;
          [|rewrite (bind_ok _ _ _ _ _ Ep), (bind_ok _ _ _ _ _ Ed);
            apply (bind_throw _ _ _ _ _ El)].
        rewrite Kc, Kl, Kd, Kp. reflexivity.
    + erewrite try_catch_throw;
        [|rewrite (bind_ok _ _ _ _ _ Ep); apply (bind_throw _ _ _ _ _ Ed)].
      rewrite Kc, Kd, Kp. reflexivity.
  - erewrite try_catch_throw; [|apply (bind_throw _ _ _ _ _ Ep)].
    rewrite Kc, app_nil_r. exact Kp.
Qed.

(** X3. [sendEmail] hands at most one message to the transport, as its
    last step before logging: the message it has prepared, when the
    configuration, the template and the images have gone through, and
    none otherwise.  That message is addressed to all the recipients of
    the request at once. *)
Theorem sendEmail_deliveries {W} (env : Env W) (data : EmailData)
    (id : option string) (s : State W) :
  sent_mails (trace (snd (sendEmail env data id s)))
  = (sent_mails (trace s)
     ++ match sendEmail_prepare env data id s with
        | (Ok (inr p), _) => [p_mailOptions p]
        | _ => []
        end)%list
  /\ forall p s1, sendEmail_prepare env data id s = (Ok (inr p), s1) ->
                  mail_to (p_mailOptions p) = formatRecipients (to data).
Proof.
  split; [apply sendEmail_sent|].
  intros p s1 H. apply (prepared_addresses env data id p s s1 H).
Qed.

(** ** The log entries of one send *)

Section LoopFacts.
Context {W : Type} (env : Env W).

(** A logging loop that has come back has written one entry for every
    element, in order. *)
Lemma logging_loop_returned {A} (xs : list A)
    (mk : A -> string -> EmailLogEntry) (s s' : State W) :
  for_each xs (fun x => ts <- timestamp env ;; log_activity env (mk x ts)) s
  = (Ok tt, s') ->
  exists es,
    written_entries (trace s') = (written_entries (trace s) ++ es)%list
    /\ Forall2 (fun x e => exists ts, e = mk x ts) xs es.
Proof.
  revert s. induction xs as [|x xs IH]; intros s H; simpl in H.
  - injection H as <-. exists []. rewrite app_nil_r. split; constructor.
  - bind_inv H u s1. unfold bind, timestamp, log_activity in Eu.
    simpl in Eu.
    destruct (logEmailActivity env (mk x (now env (world s))) (world s))
      as [[err|v] w']; [discriminate|].
    inversion Eu; subst. destruct (IH _ H) as (es & T & F).
    cbn [trace] in T. rewrite written_entries_app in T.
    exists (mk x (now env (world s)) :: es).
    split; [rewrite T, <- app_assoc; reflexivity|]. constructor; eauto.
Qed.

(** The only early [return] of the [try] block. *)
Lemma sendEmail_prepare_early data id r (s s1 : State W) :
  sendEmail_prepare env data id s = (Ok (inl r), s1) ->
  r = config_not_found /\ smtpConfig data = None.
Proof.
  unfold sendEmail_prepare. intros H. bind_inv H t s0. bind_inv H res s2.
  unfold resolve_smtpConfig in Eres.
  destruct (smtpConfig data) as [dc|].
  { injection Eres as <- _. bind_inv H q s3. discriminate. }
  split; [|reflexivity].
  destruct res as [early|[cfg|]].
  - injection H as <- _. destruct (JS.as_truthy id) as [i|].
    + bind_inv Eres configs s3.
      destruct (JS.find _ configs); [discriminate|].
      injection Eres as <- _. reflexivity.
    + bind_inv Eres d s3. discriminate.
  - bind_inv H q s3. discriminate.
  - injection H as <- _. reflexivity.
Qed.

Lemma sendEmail_prepare_silent data id (s : State W) :
  written_entries (trace (snd (sendEmail_prepare env data id s)))
  = written_entries (trace s).
Proof.
  apply keeps_written, keeps_sendEmail_prepare, is_log_blind.
Qed.

End LoopFacts.

(** X4. A send whose [try] block throws, with a log store that takes
    failure entries: [sendEmail] returns the failure with the message of
    the error, after writing one failure entry for every recipient, in
    order.  The entries carry the configuration id of the call, or
    [unknown] without one (also when the request brought its own
    configuration), and the subject of the request as it came.  Nothing
    is handed to the transport after the error. *)
Theorem sendEmail_failure_entries {W} (env : Env W) (data : EmailData)
    (id : option string) (s s1 : State W) (error : Exn) :
  log_returns env (fun e => negb (log_success e)) ->
  sendEmail_try env data id s = (Throw error, s1) ->
  exists s' es,
    sendEmail env data id s
    = (Ok {| success := false; message := Some (send_error_message error) |},
       s')
    /\ written_entries (trace s') = (written_entries (trace s1) ++ es)%list
    /\ Forall2 (fun recipient e => exists ts,
                  e = {| log_timestamp := ts;
                         log_smtpConfig := JS.or_else id "unknown";
                         log_templateId := templateId data;
                         log_recipient := email recipient;
                         log_subject := subject data;
                         log_success := false;
                         log_message := send_error_message error |})
         (as_array (to data)) es
    /\ sent_mails (trace s') = sent_mails (trace s1).
Proof.
  intros Hlog Et.
  destruct (sendEmail_catch_ok env data id error s1 Hlog) as (s' & Hc).
  exists s'. unfold sendEmail. rewrite (try_catch_throw _ _ _ _ _ Et), Hc.
  pose proof (adds_no_delivery (sendEmail_catch env data id error) s1
                (sendEmail_catch_no_delivery env data id error)) as Hd.
  rewrite Hc in Hd. simpl in Hd.
  unfold sendEmail_catch, logToFile in Hc.
  bind_inv Hc u s2. bind_inv Hc v s3. injection Hc as <-.
  destruct v.
  destruct (logging_loop_returned env _ _ _ _ Ev) as (es & T & F).
  exists es. repeat split; try assumption.
  unfold emit in Eu. inversion Eu; subst. cbn [trace] in T.
  rewrite written_entries_app in T.
  change (written_entries [EvLogToFile ("Error sending email: "
                                          ++ error_text error)])
    with (@nil EmailLogEntry) in T.
  rewrite app_nil_r in T. exact T.
Qed.

(** Two recipients and a transport that rejects the message. *)
Lemma sendEmail_failure_entries_witness :
  exists s' es,
    sendEmail Sample.rejecting
      (Sample.request (Many [Sample.ann; Sample.bob]) None) None Sample.start
    = (Ok {| success := false;
             message := Some (send_error_message
                                (JsError "Error" "mailbox unavailable")) |},
       s')
    /\ written_entries (trace s')
       = (written_entries
            (trace (snd (sendEmail_try Sample.rejecting
                           (Sample.request (Many [Sample.ann; Sample.bob]) None)
                           None Sample.start))) ++ es)%list
    /\ Forall2 (fun recipient e => exists ts,
                  e = {| log_timestamp := ts;
                         log_smtpConfig := JS.or_else None "unknown";
                         log_templateId :=
                           templateId (Sample.request
                                         (Many [Sample.ann; Sample.bob]) None);
                         log_recipient := email recipient;
                         log_subject :=
                           subject (Sample.request
                                      (Many [Sample.ann; Sample.bob]) None);
                         log_success := false;
                         log_message :=
                           send_error_message
                             (JsError "Error" "mailbox unavailable") |})
         (as_array (to (Sample.request (Many [Sample.ann; Sample.bob]) None)))
         es
    /\ sent_mails (trace s')
       = sent_mails
           (trace (snd (sendEmail_try Sample.rejecting
                          (Sample.request (Many [Sample.ann; Sample.bob]) None)
                          None Sample.start))).
Proof.
  apply (sendEmail_failure_entries Sample.rejecting
           (Sample.request (Many [Sample.ann; Sample.bob]) None) None
           Sample.start).
  - intros e w _. eexists. reflexivity.
  - vm_compute. reflexivity.
Defined.



(** ** The two looks at the configuration *)

Section ConfigFacts.
Context {W : Type} (env : Env W).

(** With stores that answer the same twice, the configuration that
    [sendEmail] finds is the one the transport was made from. *)
Lemma createTransport_config data id t (s s0 : State W) :
  stable (getSmtpConfigs env) -> stable (getDefaultSmtpConfig env) ->
  createTransport env id (smtpConfig data) s = (Ok t, s0) ->
  exists c s1,
    resolve_smtpConfig env data id s0 = (Ok (inr (Some c)), s1)
    /\ t = nodemailer_createTransport c
    /\ (forall dc, smtpConfig data = Some dc -> c = Dynamic dc).
Proof.
  intros configs_stable default_stable.
  unfold createTransport, resolve_smtpConfig. intros Et.
  destruct (smtpConfig data) as [dc|].
  { unfold bind, call, throw, ret, console_log, emit in *. simpl in Et.
    injection Et as <- _. eexists _, _. split; [reflexivity|].
    split; [reflexivity|]. now intros dc' [= <-]. }
  unfold bind, call, throw, ret, console_log, emit in *.
  destruct (JS.as_truthy id) as [i|].
  - pose proof (configs_stable (world s) (world s0)) as Hst.
    destruct (getSmtpConfigs env (world s)) as [[e|configs] w1];
      simpl in Et; [discriminate|].
    destruct (JS.find _ configs) as [c|] eqn:Ef; simpl in Et; [|discriminate].
    destruct (getSmtpConfigs env (world s0)) as [[e|configs'] w2];
      simpl in Hst; [discriminate|].
    injection Hst as <-. rewrite Ef. injection Et as <- _.
    eexists _, _. split; [reflexivity|]. split; [reflexivity | discriminate].
  - pose proof (default_stable (world s) (world s0)) as Hst.
    destruct (getDefaultSmtpConfig env (world s)) as [[e|d] w1];
      simpl in Et; [discriminate|].
    destruct d as [c|]; simpl in Et; [|discriminate].
    destruct (getDefaultSmtpConfig env (world s0)) as [[e|d'] w2];
      simpl in Hst; [discriminate|].
    injection Hst as <-. injection Et as <- _.
    eexists _, _. split; [reflexivity|]. split; [reflexivity | discriminate].
Qed.
End ConfigFacts.

(** X6. The early [return] of [sendEmail], taken when its own look at the
    configuration store finds nothing although [createTransport] has
    found something: the caller gets the failure [SMTP configuration not
    found], nothing has been handed to the transport, and, unlike on every
    other failure, no log entry is written.  A request that brings its
    own configuration never takes it. *)
Theorem sendEmail_early_return {W} (env : Env W) (data : EmailData)
    (id : option string) (s s1 : State W) (r : SendResult) :
  sendEmail_prepare env data id s = (Ok (inl r), s1) ->
  sendEmail env data id s = (Ok config_not_found, s1)
  /\ smtpConfig data = None
  /\ sent_mails (trace s1) = sent_mails (trace s)
  /\ written_entries (trace s1) = written_entries (trace s).
Proof.
  intros H. destruct (sendEmail_prepare_early env _ _ _ _ _ H) as [-> Hc].
  split; [|split; [exact Hc|split]].
  - unfold sendEmail, sendEmail_try. apply try_catch_ok.
    rewrite (bind_ok _ _ _ _ _ H). reflexivity.
  - pose proof (adds_no_delivery _ s
                  (sendEmail_prepare_no_delivery env data id)) as D.
    rewrite H in D. exact D.
  - pose proof (sendEmail_prepare_silent env data id s) as K.
    rewrite H in K. exact K.
Qed.

(** A store that loses the configuration between the two looks. *)
Lemma sendEmail_early_return_witness :
  sendEmail Sample.vanishing (Sample.request (One Sample.ann) None)
    (Some "office") Sample.start
  = (Ok config_not_found,
     snd (sendEmail_prepare Sample.vanishing
            (Sample.request (One Sample.ann) None) (Some "office")
            Sample.start))
  /\ smtpConfig (Sample.request (One Sample.ann) None) = None
  /\ sent_mails
       (trace (snd (sendEmail_prepare Sample.vanishing
                      (Sample.request (One Sample.ann) None) (Some "office")
                      Sample.start)))
     = sent_mails (trace Sample.start)
  /\ written_entries
       (trace (snd (sendEmail_prepare Sample.vanishing
                      (Sample.request (One Sample.ann) None) (Some "office")
                      Sample.start)))
     = written_entries (trace Sample.start).
Proof.
  apply (sendEmail_early_return Sample.vanishing
           (Sample.request (One Sample.ann) None) (Some "office")
           Sample.start _ config_not_found).
  vm_compute. reflexivity.
Defined.

(** X7. With configuration stores that answer the same whenever they are
    asked, the early [return] of [sendEmail] is never taken: a
    configuration that is missing makes [createTransport] throw first.
    A prepared message then goes through a transport made from the very
    configuration that names the default sender and labels the log
    entries; a configuration in the request is that configuration. *)
Theorem sendEmail_one_configuration {W} (env : Env W) (data : EmailData)
    (id : option string) (s : State W) :
  stable (getSmtpConfigs env) -> stable (getDefaultSmtpConfig env) ->
  (forall r s1, sendEmail_prepare env data id s <> (Ok (inl r), s1))
  /\ (forall p s1,
         sendEmail_prepare env data id s = (Ok (inr p), s1) ->
         p_transport p = nodemailer_createTransport (p_smtpConfig p)
         /\ (from data = None ->
             mail_from (p_mailOptions p) = t_auth_user (p_transport p))
         /\ (forall dc, smtpConfig data = Some dc ->
                        p_smtpConfig p = Dynamic dc)).
Proof.
  intros Hc Hd. split.
  - intros r s1 H.
    pose proof (sendEmail_prepare_not_early env Hc Hd data id s) as N.
    rewrite H in N. exact N.
  - intros p s1 H. unfold sendEmail_prepare in H. bind_inv H t s0.
    destruct (createTransport_config env data id t s s0 Hc Hd Et)
      as (c & s2 & Er & -> & Hdc).
    rewrite (bind_ok _ _ _ _ _ Er) in H. bind_inv H q s3.
    injection H as <- _. unfold compose_mail in Eq.
    bind_inv Eq ct s4. bind_inv Eq bd s5. injection Eq as <- _.
    cbn [p_transport p_smtpConfig p_mailOptions mail_from].
    split; [reflexivity|]. split; [|exact Hdc].
    intros ->. reflexivity.
Qed.

(** The stores of the sample environment never change. *)
Lemma sendEmail_one_configuration_witness :
  (forall r s1,
      sendEmail_prepare Sample.healthy (Sample.request (One Sample.ann) None)
        (Some "backup") Sample.start <> (Ok (inl r), s1))
  /\ (forall p s1,
         sendEmail_prepare Sample.healthy
           (Sample.request (One Sample.ann) None) (Some "backup") Sample.start
         = (Ok (inr p), s1) ->
         p_transport p = nodemailer_createTransport (p_smtpConfig p)
         /\ (from (Sample.request (One Sample.ann) None) = None ->
             mail_from (p_mailOptions p) = t_auth_user (p_transport p))
         /\ (forall dc,
                smtpConfig (Sample.request (One Sample.ann) None) = Some dc ->
                p_smtpConfig p = Dynamic dc)).
Proof.
  apply (sendEmail_one_configuration Sample.healthy
           (Sample.request (One Sample.ann) None) (Some "backup")
           Sample.start).
  - intros w1 w2. reflexivity.
  - intros w1 w2. reflexivity.
Defined.

(** ** More on bulk sends *)

Section BatchCountFacts.
Context {A : Type}.

Lemma batch_count_step (n size : nat) :
  (0 < n)%nat -> (0 < size)%nat ->
  batch_count n size = S (batch_count (n - size) size).
Proof.
  intros Hn Hs. unfold batch_count.
  replace (n + size - 1)%nat with ((n - 1) + 1 * size)%nat by lia.
  rewrite Nat.div_add by lia.
  destruct (Nat.le_gt_cases size n) as [Hle|Hgt].
  - replace (n - size + size - 1)%nat with (n - 1)%nat by lia. lia.
  - replace (n - size + size - 1)%nat with (size - 1)%nat by lia.
    rewrite !Nat.div_small by lia. lia.
Qed.

Lemma chunks_go_length (fuel size : nat) (l : list A) :
  (0 < size)%nat -> (length l <= fuel)%nat ->
  length (chunks_go fuel size l) = batch_count (length l) size.
Proof.
  intros Hs. revert l. induction fuel as [|fuel IH]; intros l Hl.
  - destruct l; [|simpl in Hl; lia]. simpl. unfold batch_count.
    simpl. symmetry. apply Nat.div_small. lia.
  - destruct l as [|x l].
    + simpl. unfold batch_count. simpl. symmetry. apply Nat.div_small. lia.
    + cbn [chunks_go length]. rewrite IH.
      * rewrite length_skipn. symmetry.
        apply (batch_count_step (length (x :: l))); simpl; lia.
      * rewrite length_skipn. simpl in *. lia.
Qed.

Lemma chunks_length (size : nat) (l : list A) :
  (0 < size)%nat -> length (chunks size l) = batch_count (length l) size.
Proof. intros Hs. apply chunks_go_length; [exact Hs | lia]. Qed.
End BatchCountFacts.

Lemma filter_within (P Q : Event -> bool) (t : list Event) :
  (forall ev, Q ev = true -> P ev = true) ->
  List.filter Q (List.filter P t) = List.filter Q t.
Proof.
  intros H. induction t as [|ev t IH]; [reflexivity|]. simpl.
  destruct (P ev) eqn:Ep; simpl.
  - now rewrite IH.
  - destruct (Q ev) eqn:Eq; [|exact IH].
    rewrite (H ev Eq) in Ep. discriminate.
Qed.

Lemma is_batch_sched ev : is_batch ev = true -> is_sched ev = true.
Proof. now destruct ev. Qed.

Lemma is_delay_sched ev : is_delay ev = true -> is_sched ev = true.
Proof. now destruct ev. Qed.

(** X8. The number of turns of the batching loop.  With a batch size of
    at least one, [sendBulkEmails] takes as many batches as the number of
    recipients divided by the batch size, rounded up, and pauses once
    less than that. *)
Theorem sendBulkEmails_batch_count {W} (env : Env W) (fuel : nat)
    (data : BulkEmailData) (id : option string) (s : State W) :
  0 < default 10 (batchSize data) ->
  (length (recipients data) < fuel)%nat ->
  exists r s',
    sendBulkEmails env fuel data id s = (Ok r, s')
    /\ length (List.filter is_batch (trace s'))
       = (length (List.filter is_batch (trace s))
          + batch_count (length (recipients data))
              (Z.to_nat (default 10%Z (batchSize data))))%nat
    /\ length (List.filter is_delay (trace s'))
       = (length (List.filter is_delay (trace s))
          + (batch_count (length (recipients data))
               (Z.to_nat (default 10%Z (batchSize data))) - 1))%nat.
Proof.
  intros Hsize Hfuel.
  pose proof (sendBulkEmails_run env fuel data id s Hsize) as Hrun.
  destruct (sendBulkEmails env fuel data id s) as [[r|e|] s'];
    [|contradiction|lia].
  destruct Hrun as [_ E]. exists r, s'. split; [reflexivity|].
  pose proof (schedule_delays (default 1000 (delayBetweenBatches data))
                (chunks (Z.to_nat (default 10 (batchSize data)))
                   (recipients data))) as [Hd Hb].
  rewrite chunks_length in Hd, Hb by lia.
  split.
  - rewrite <- (filter_within is_sched is_batch (trace s') is_batch_sched), E.
    rewrite List.filter_app, length_app.
    rewrite (filter_within is_sched is_batch (trace s) is_batch_sched).
    f_equal. exact Hb.
  - rewrite <- (filter_within is_sched is_delay (trace s') is_delay_sched), E.
    rewrite List.filter_app, length_app.
    rewrite (filter_within is_sched is_delay (trace s) is_delay_sched).
    f_equal. exact Hd.
Qed.

(** Twenty-five recipients in batches of ten. *)
Lemma sendBulkEmails_batch_count_witness :
  exists r s',
    sendBulkEmails Sample.healthy 26
      (Sample.bulk_request (Sample.crowd 25) (Some 10%Z)) None Sample.start
    = (Ok r, s')
    /\ length (List.filter is_batch (trace s'))
       = (length (List.filter is_batch (trace Sample.start))
          + batch_count
              (length (recipients
                         (Sample.bulk_request (Sample.crowd 25) (Some 10%Z))))
              (Z.to_nat
                 (default 10%Z
                    (batchSize
                       (Sample.bulk_request (Sample.crowd 25) (Some 10%Z))))))%nat
    /\ length (List.filter is_delay (trace s'))
       = (length (List.filter is_delay (trace Sample.start))
          + (batch_count
               (length (recipients
                          (Sample.bulk_request (Sample.crowd 25) (Some 10%Z))))
               (Z.to_nat
                  (default 10%Z
                     (batchSize
                        (Sample.bulk_request (Sample.crowd 25) (Some 10%Z)))))
             - 1))%nat.
Proof.
  apply (sendBulkEmails_batch_count Sample.healthy 26
           (Sample.bulk_request (Sample.crowd 25) (Some 10%Z)) None
           Sample.start).
  - reflexivity.
  - vm_compute. lia.
Defined.

Lemma append_empty_r (x : string) : x ++ EmptyString = x.
Proof. induction x as [|c x IH]; simpl; [reflexivity | now rewrite IH]. Qed.

(** A template that is one placeholder. *)
Lemma processTemplate_one_token (data : TemplateData) (key : string) :
  JS.truthy key = true -> has_char "}" key = false ->
  processTemplate (token key) data = replacer data (token key) key.
Proof.
  intros Ht Hk.
  pose proof (processTemplate_token data EmptyString key EmptyString
                eq_refl Ht Hk) as E.
  rewrite append_empty_r in E.
  change (EmptyString ++ token key) with (token key) in E.
  rewrite E. change (processTemplate EmptyString data) with EmptyString.
  rewrite append_empty_r. reflexivity.
Qed.

(** X9. The substitution data of a bulk send.  For every recipient the
    keys [email] and [name] are set after the data of the request, so
    they win over keys of the same name that the request supplies; a
    recipient without a display name gets the empty string for [name],
    which is a defined value: the placeholder is replaced by nothing and
    does not stay in the text.  Every other key reads as in the data of
    the request. *)
Theorem bulk_recipient_placeholders (data : BulkEmailData)
    (recipient : EmailRecipient) (key : string) :
  JS.truthy key = true -> has_char "}" key = false ->
  (JS.trim key = "email" ->
   processTemplate (token key)
     (default ∅ (templateData (bulk_emailData data recipient)))
   = email recipient)
  /\ (JS.trim key = "name" ->
      processTemplate (token key)
        (default ∅ (templateData (bulk_emailData data recipient)))
      = JS.or_else (name recipient) "")
  /\ (JS.trim key <> "email" -> JS.trim key <> "name" ->
      processTemplate (token key)
        (default ∅ (templateData (bulk_emailData data recipient)))
      = processTemplate (token key) (default ∅ (bulk_templateData data))).
Proof.
  intros Ht Hk. rewrite !processTemplate_one_token by assumption.
  unfold replacer, js_get.
  cbn [bulk_emailData templateData default from_option id].
  repeat split.
  - intros ->. rewrite lookup_insert_ne by discriminate.
    rewrite lookup_insert_eq. reflexivity.
  - intros ->. rewrite lookup_insert_eq. reflexivity.
  - intros He Hn. rewrite !lookup_insert_ne by congruence. reflexivity.
Qed.

(** A recipient without a display name, a request whose data carries a
    [name] of its own, and a key with white space around it. *)
Lemma bulk_recipient_placeholders_witness :
  (JS.trim " name " = "email" ->
   processTemplate (token " name ")
     (default ∅
        (templateData
           (bulk_emailData
              (mkBulkEmailData [Sample.bob] "S" "B" None None None None
                 (Some (<["name" := JStr "Dear customer"]> ∅)) None None None)
              Sample.bob)))
   = email Sample.bob)
  /\ (JS.trim " name " = "name" ->
      processTemplate (token " name ")
        (default ∅
           (templateData
              (bulk_emailData
                 (mkBulkEmailData [Sample.bob] "S" "B" None None None None
                    (Some (<["name" := JStr "Dear customer"]> ∅)) None None
                    None)
                 Sample.bob)))
      = JS.or_else (name Sample.bob) "")
  /\ (JS.trim " name " <> "email" -> JS.trim " name " <> "name" ->
      processTemplate (token " name ")
        (default ∅
           (templateData
              (bulk_emailData
                 (mkBulkEmailData [Sample.bob] "S" "B" None None None None
                    (Some (<["name" := JStr "Dear customer"]> ∅)) None None
                    None)
                 Sample.bob)))
      = processTemplate (token " name ")
          (default ∅
             (bulk_templateData
                (mkBulkEmailData [Sample.bob] "S" "B" None None None None
                   (Some (<["name" := JStr "Dear customer"]> ∅)) None None
                   None)))).
Proof.
  apply (bulk_recipient_placeholders
           (mkBulkEmailData [Sample.bob] "S" "B" None None None None
              (Some (<["name" := JStr "Dear customer"]> ∅)) None None None)
           Sample.bob " name "); reflexivity.
Defined.

(** ** The messages of a bulk send *)

Section BulkDeliveryFacts.
Context {W : Type} (env : Env W).
Variable data : BulkEmailData.
Variable id : option string.




End BulkDeliveryFacts.



(** ** A negative batch size *)

Section NegativeBatchFacts.
Context {W : Type} (env : Env W).
Variable data : BulkEmailData.
Variable id : option string.
Variables size delay : Z.
Hypothesis size_negative : size < 0.

(** Behind the start of the array, a slice that ends before it begins. *)
Lemma slice_behind {A} (l : list A) (i : Z) :
  i < 0 -> JS.slice l i (i + size) = [].
Proof.
  intros Hi. unfold JS.slice, JS.clamp_index. cbv zeta.
  destruct (Z.ltb_spec i 0); [|lia].
  destruct (Z.ltb_spec (i + size) 0); [|lia].
  replace (Z.to_nat _) with 0%nat by lia. reflexivity.
Qed.

(** From the start of the array, all but the last elements. *)
Lemma slice_all_but_last {A} (l : list A) :
  JS.slice l 0 size = firstn (length l - Z.to_nat (- size)) l.
Proof.
  unfold JS.slice, JS.clamp_index. cbv zeta.
  destruct (Z.ltb_spec 0 0); [lia|].
  destruct (Z.ltb_spec size 0); [|lia].
  replace (Z.to_nat (Z.min 0 (Z.of_nat (length l)))) with 0%nat by lia.
  simpl skipn. f_equal. lia.
Qed.

Lemma bulk_loop_spins (fuel : nat) :
  forall (i : Z) (tally : Tally) (s : State W),
    i < 0 ->
    fst (bulk_loop env fuel data id size delay i tally s) = OutOfFuel
    /\ List.filter is_batch
         (trace (snd (bulk_loop env fuel data id size delay i tally s)))
       = (List.filter is_batch (trace s) ++ repeat (EvBatch []) fuel)%list.
Proof.
  induction fuel as [|fuel IH]; intros i tally s Hi.
  - simpl. rewrite app_nil_r. split; reflexivity.
  - simpl bulk_loop.
    destruct (Z.ltb_spec i (Z.of_nat (length (recipients data)))); [|lia].
    destruct (Z.ltb_spec (i + size) (Z.of_nat (length (recipients data))));
      [|lia].
    rewrite slice_behind by exact Hi.
    erewrite bind_ok by reflexivity. simpl fold_each.
    erewrite bind_ok by reflexivity. erewrite bind_ok by reflexivity.
    cbn [world trace].
    destruct (IH (i + size) tally
                (mkState (world s)
                   ((trace s ++ [EvBatch []]) ++ [EvDelay delay]))
                ltac:(lia)) as [H1 H2].
    split; [exact H1|]. rewrite H2. cbn [trace].
    rewrite !List.filter_app. simpl. rewrite app_nil_r, <- app_assoc.
    reflexivity.
Qed.

Lemma bulk_loop_first_turn (fuel : nat) (tally : Tally) (s : State W) :
  recipients data <> [] ->
  fst (bulk_loop env (S fuel) data id size delay 0 tally s) = OutOfFuel
  /\ List.filter is_batch
       (trace (snd (bulk_loop env (S fuel) data id size delay 0 tally s)))
     = (List.filter is_batch (trace s)
        ++ EvBatch (JS.slice (recipients data) 0 size)
             :: repeat (EvBatch []) fuel)%list.
Proof.
  intros Hne. simpl bulk_loop. change (0 + size) with size.
  assert (0 < Z.of_nat (length (recipients data))) as Hlen.
  { destruct (recipients data); [contradiction | simpl; lia]. }
  destruct (Z.ltb_spec 0 (Z.of_nat (length (recipients data)))); [|lia].
  destruct (Z.ltb_spec size (Z.of_nat (length (recipients data)))); [|lia].
  erewrite bind_ok by reflexivity.
  destruct (bulk_batch_run env data id (JS.slice (recipients data) 0 size)
              tally
              (mkState (world s)
                 (trace s ++ [EvBatch (JS.slice (recipients data) 0 size)])))
    as (t1 & s1 & H1 & K1 & _).
  rewrite (bind_ok _ _ _ _ _ H1). erewrite bind_ok by reflexivity.
  destruct (bulk_loop_spins fuel size t1
              (mkState (world s1) (trace s1 ++ [EvDelay delay]))
              size_negative) as [H2 K2].
  split; [exact H2|]. rewrite K2. cbn [trace].
  rewrite List.filter_app. simpl. rewrite app_nil_r.
  rewrite <- (filter_within is_sched is_batch (trace s1) is_batch_sched), K1.
  rewrite (filter_within is_sched is_batch _ is_batch_sched).
  cbn [trace]. rewrite List.filter_app. simpl. rewrite <- app_assoc.
  reflexivity.
Qed.
End NegativeBatchFacts.

(** X11. A negative batch size.  The first slice, from index zero to the
    negative end, holds all recipients but the last ones, as many as the
    size counts, and these are sent to; the index then goes below zero,
    where every slice is empty and the loop condition holds for ever: the
    call never returns, whatever the number of turns it is given, and
    reports nothing about the messages it has sent. *)
Theorem sendBulkEmails_negative_batchSize {W} (env : Env W) (fuel : nat)
    (data : BulkEmailData) (id : option string) (s : State W) :
  default 10 (batchSize data) < 0 ->
  recipients data <> [] ->
  fst (sendBulkEmails env (S fuel) data id s) = OutOfFuel
  /\ List.filter is_batch
       (trace (snd (sendBulkEmails env (S fuel) data id s)))
     = (List.filter is_batch (trace s)
        ++ EvBatch (JS.slice (recipients data) 0 (default 10 (batchSize data)))
             :: repeat (EvBatch []) fuel)%list
  /\ JS.slice (recipients data) 0 (default 10 (batchSize data))
     = firstn (length (recipients data)
               - Z.to_nat (- default 10 (batchSize data)))
         (recipients data).
Proof.
  intros Hsize Hne.
  destruct (bulk_loop_first_turn env data id _
              (default 1000 (delayBetweenBatches data)) Hsize fuel (0, []) s
              Hne) as [H1 H2].
  split; [|split; [|apply slice_all_but_last; exact Hsize]].
  - unfold sendBulkEmails, try_catch, bind.
    destruct (recipients data) as [|r0 rs]; [contradiction|].
    destruct (bulk_loop env (S fuel) data id _ _ 0 (0, []) s)
      as [[t|e|] s1]; simpl in H1; try discriminate. reflexivity.
  - rewrite <- H2. unfold sendBulkEmails, try_catch, bind.
    destruct (recipients data) as [|r0 rs]; [contradiction|].
    destruct (bulk_loop env (S fuel) data id _ _ 0 (0, []) s)
      as [[t|e|] s1]; simpl in H1; try discriminate. reflexivity.
Qed.

(** Three recipients and a batch size of minus one: the first two are
    sent to. *)
Lemma sendBulkEmails_negative_batchSize_witness :
  fst (sendBulkEmails Sample.healthy 4
         (Sample.bulk_request (Sample.crowd 3) (Some (-1))) None Sample.start)
  = OutOfFuel
  /\ List.filter is_batch
       (trace (snd (sendBulkEmails Sample.healthy 4
                      (Sample.bulk_request (Sample.crowd 3) (Some (-1))) None
                      Sample.start)))
     = (List.filter is_batch (trace Sample.start)
        ++ EvBatch
             (JS.slice
                (recipients (Sample.bulk_request (Sample.crowd 3) (Some (-1))))
                0
                (default 10
                   (batchSize
                      (Sample.bulk_request (Sample.crowd 3) (Some (-1))))))
             :: repeat (EvBatch []) 3)%list
  /\ JS.slice (recipients (Sample.bulk_request (Sample.crowd 3) (Some (-1)))) 0
       (default 10
          (batchSize (Sample.bulk_request (Sample.crowd 3) (Some (-1)))))
     = firstn
         (length (recipients
                    (Sample.bulk_request (Sample.crowd 3) (Some (-1))))
          - Z.to_nat
              (- default 10%Z
                   (batchSize
                      (Sample.bulk_request (Sample.crowd 3) (Some (-1)%Z)))))
         (recipients (Sample.bulk_request (Sample.crowd 3) (Some (-1)))).
Proof.
  apply (sendBulkEmails_negative_batchSize Sample.healthy 3
           (Sample.bulk_request (Sample.crowd 3) (Some (-1))) None
           Sample.start).
  - reflexivity.
  - discriminate.
Defined.

(** ** The outer handler of a bulk send *)

Section BulkTotalFacts.
Context {W : Type} (env : Env W).
Variable data : BulkEmailData.
Variable id : option string.

End BulkTotalFacts.


(** ** The HTTP handlers *)

Section ApiFacts.
Context {W : Type} (env : Env W).

End ApiFacts.

(** X12. Validation in the two handlers.  A request to [/api/email/send]
    without [to], or whose [subject] or [body] is missing or the empty
    string, is answered with status 400 and the service is not called:
    nothing is resolved, sent or logged.  The same holds for
    [/api/email/bulk] and its field [recipients]. *)
Theorem api_missing_fields {W} (env : Env W) (fuel : nat) (s : State W) :
  (forall req,
      sb_to req = None \/ JS.as_truthy (sb_subject req) = None
      \/ JS.as_truthy (sb_body req) = None ->
      api_email_send env req s = (Ok missing_send_fields, s))
  /\ (forall req,
         bb_recipients req = None \/ JS.as_truthy (bb_subject req) = None
         \/ JS.as_truthy (bb_body req) = None ->
         api_email_bulk env fuel req s = (Ok missing_bulk_fields, s)).
Proof.
  split; intros req H.
  - unfold api_email_send. apply try_catch_ok.
    destruct (sb_to req) as [rcpt|];
      destruct (JS.as_truthy (sb_subject req)) as [subj|];
      destruct (JS.as_truthy (sb_body req)) as [b|];
      try reflexivity.
    destruct H as [H|[H|H]]; discriminate.
  - unfold api_email_bulk. apply try_catch_ok.
    destruct (bb_recipients req) as [rcpts|];
      destruct (JS.as_truthy (bb_subject req)) as [subj|];
      destruct (JS.as_truthy (bb_body req)) as [b|];
      try reflexivity.
    destruct H as [H|[H|H]]; discriminate.
Qed.



(** X14. The answers of [/api/email/bulk] to a request that passes
    validation, with a batch size of at least one: always status 200
    with the result of [sendBulkEmails] as the body, whatever that result
    says, also when no message at all was sent.  An empty array of
    recipients passes validation and is answered that way, with the
    message of the service about the missing recipients. *)
Theorem api_email_bulk_status {W} (env : Env W) (fuel : nat) (req : BulkBody)
    (s : State W) (rcpts : list EmailRecipient) (subj b : string) :
  bb_recipients req = Some rcpts ->
  JS.as_truthy (bb_subject req) = Some subj ->
  JS.as_truthy (bb_body req) = Some b ->
  0 < default 10 (bb_batchSize req) ->
  (length rcpts < fuel)%nat ->
  exists r s',
    api_email_bulk env fuel req s = (Ok (mkHttpResponse 200 (JsonBulk r)), s')
    /\ sendBulkEmails env fuel (bulk_emailBody req rcpts subj b)
         (bb_smtpConfigId req) s = (Ok r, s')
    /\ totalSent r + totalFailed r = Z.of_nat (length rcpts)
    /\ (rcpts = [] ->
        bulk_success r = false
        /\ bulk_message r = Some "No recipients provided"
        /\ s' = s).
Proof.
  intros Hr Hsubj Hbody Hsize Hfuel.
  destruct (sendBulkEmails_counts env fuel (bulk_emailBody req rcpts subj b)
              (bb_smtpConfigId req) s Hsize Hfuel)
    as (r & s' & Hrun & Hsum & _).
  exists r, s'. split; [|split; [exact Hrun|split; [exact Hsum|]]].
  - unfold api_email_bulk. rewrite Hr, Hsubj, Hbody.
    apply try_catch_ok. rewrite (bind_ok _ _ _ _ _ Hrun). reflexivity.
  - intros ->. unfold sendBulkEmails in Hrun. simpl in Hrun.
    injection Hrun as <- <-. repeat split.
Qed.

(** An empty array of recipients. *)
Lemma api_email_bulk_status_witness :
  exists r s',
    api_email_bulk Sample.healthy 1
      (mkBulkBody (Some []) (Some "S") (Some "B") None None None None None
         None None None None) Sample.start
    = (Ok (mkHttpResponse 200 (JsonBulk r)), s')
    /\ sendBulkEmails Sample.healthy 1
         (bulk_emailBody
            (mkBulkBody (Some []) (Some "S") (Some "B") None None None None
               None None None None None) [] "S" "B")
         (bb_smtpConfigId
            (mkBulkBody (Some []) (Some "S") (Some "B") None None None None
               None None None None None)) Sample.start = (Ok r, s')
    /\ totalSent r + totalFailed r = Z.of_nat (@length EmailRecipient [])
    /\ (@nil EmailRecipient = [] ->
        bulk_success r = false
        /\ bulk_message r = Some "No recipients provided"
        /\ s' = Sample.start).
Proof.
  apply (api_email_bulk_status Sample.healthy 1
           (mkBulkBody (Some []) (Some "S") (Some "B") None None None None None
              None None None None) Sample.start [] "S" "B");
    try reflexivity.
  simpl. lia.
Defined.

(** ** saveAndProcessImages *)

Section ImageFacts.
Context {W : Type} (io : ImageEnv W).

(** One turn of the loop over the images always goes on to the next. *)
Lemma process_image_returns dir base newBody image (s : State W) :
  exists b s',
    Images.process_image io dir base newBody image s = (Ok b, s')
    /\ (b = newBody
        \/ (JS.truthy (content image) = true
            /\ JS.truthy (filename image) = true
            /\ test_src (filename image) newBody = true)).
Proof.
  unfold Images.process_image, try_catch, bind, Images.unique_suffix, call,
    logToFile, emit, ret.
  destruct (JS.truthy (content image)); simpl; [|eauto].
  destruct (JS.truthy (filename image)); simpl; [|eauto].
  destruct (uniqueSuffix io (world s)) as [x w1]; simpl.
  destruct (writeFileSync io _ (content image) w1) as [[e|u] w2]; simpl;
    [eauto|].
  destruct (test_src (filename image) newBody); simpl; eauto 10.
Qed.

Lemma images_loop_returns dir base images body (s : State W) :
  exists b s',
    fold_each images (Images.process_image io dir base) body s = (Ok b, s').
Proof.
  revert body s. induction images as [|i images IH]; intros body s; simpl.
  - eauto.
  - destruct (process_image_returns dir base body i s) as (b1 & s1 & H1 & _).
    rewrite (bind_ok _ _ _ _ _ H1). apply IH.
Qed.

Lemma images_loop_unreferenced dir base images body b (s s' : State W) :
  Forall (fun i => JS.truthy (content i) = false
                   \/ JS.truthy (filename i) = false
                   \/ test_src (filename i) body = false) images ->
  fold_each images (Images.process_image io dir base) body s = (Ok b, s') ->
  b = body.
Proof.
  intros Hall. revert s. induction Hall as [|i images Hi _ IH]; intros s H.
  - simpl in H. now injection H as <-.
  - simpl in H.
    destruct (process_image_returns dir base body i s)
      as (b1 & s1 & H1 & [->|(Hc & Hf & Ht)]).
    + rewrite (bind_ok _ _ _ _ _ H1) in H. apply (IH _ H).
    + destruct Hi as [Hi|[Hi|Hi]]; congruence.
Qed.
End ImageFacts.

(** X15. What can stop [saveAndProcessImages].  Making the directory of
    the images happens before the loop and outside its [try]: when it
    throws, the function throws.  Past that point it always returns a
    body: an image that cannot be written is noted in the file log and
    skipped. *)
Theorem saveAndProcessImages_outcome {W} (io : ImageEnv W) (body : string)
    (images : option (list Image)) (s : State W) :
  (existsSync io (path_join io [cwd io; "public"; "images"]) (world s) = true
   \/ (exists w', mkdirSync io (path_join io [cwd io; "public"; "images"])
                    (world s) = (inr tt, w')) ->
   exists b s', Images.saveAndProcessImages io body images s = (Ok b, s'))
  /\ (forall i rest e w',
         images = Some (i :: rest) ->
         existsSync io (path_join io [cwd io; "public"; "images"]) (world s)
         = false ->
         mkdirSync io (path_join io [cwd io; "public"; "images"]) (world s)
         = (inl e, w') ->
         Images.saveAndProcessImages io body images s
         = (Throw e, mkState w' (trace s))).
Proof.
  split.
  - intros H. unfold Images.saveAndProcessImages.
    destruct images as [[|i rest]|]; [eexists _, _; reflexivity| |
                                      eexists _, _; reflexivity].
    assert (exists s1,
               (fun s0 : State W =>
                  if existsSync io (path_join io [cwd io; "public"; "images"])
                       (world s0)
                  then ret tt s0
                  else call (mkdirSync io
                               (path_join io [cwd io; "public"; "images"])) s0)
                 s = (Ok tt, s1)) as (s1 & H1).
    { cbv beta. destruct (existsSync io _ (world s)); [eexists; reflexivity|].
      destruct H as [H|(w' & H)]; [discriminate|].
      unfold call. rewrite H. eexists; reflexivity. }
    rewrite (bind_ok _ _ _ _ _ H1).
    apply (images_loop_returns io _ _ (i :: rest)).
  - intros i rest e w' -> Hex Hmk. unfold Images.saveAndProcessImages.
    unfold bind at 1. rewrite Hex. unfold call. rewrite Hmk. reflexivity.
Qed.

(** A directory that is there, one image that is written and one that
    is not; and a directory that cannot be made. *)
Lemma saveAndProcessImages_outcome_witness :
  (exists b s',
      Images.saveAndProcessImages (Disk.io true false) Disk.page
        (Some [Disk.logo; Disk.chart]) Disk.empty = (Ok b, s'))
  /\ Images.saveAndProcessImages (Disk.io false true) Disk.page
       (Some [Disk.logo; Disk.chart]) Disk.empty
     = (Throw (JsError "Error" "EACCES: permission denied"),
        mkState [] (trace Disk.empty)).
Proof.
  split.
  - apply (proj1 (saveAndProcessImages_outcome (Disk.io true false) Disk.page
                    (Some [Disk.logo; Disk.chart]) Disk.empty)).
    left. reflexivity.
  - apply (proj2 (saveAndProcessImages_outcome (Disk.io false true) Disk.page
                    (Some [Disk.logo; Disk.chart]) Disk.empty)
             Disk.logo [Disk.chart]); reflexivity.
Defined.

(** X16. Images that the body does not refer to.  When every image of
    the request lacks a content or a file name, or has a file name that
    occurs in no [src] attribute of the body, the body comes back as it
    was given. *)
Theorem saveAndProcessImages_unreferenced {W} (io : ImageEnv W)
    (body : string) (images : option (list Image)) (s s' : State W)
    (b : string) :
  Forall (fun i => JS.truthy (content i) = false
                   \/ JS.truthy (filename i) = false
                   \/ test_src (filename i) body = false)
    (default [] images) ->
  Images.saveAndProcessImages io body images s = (Ok b, s') ->
  b = body.
Proof.
  intros Hall H. unfold Images.saveAndProcessImages in H.
  destruct images as [[|i rest]|]; try (now injection H as <-).
  bind_inv H u s1.
  apply (images_loop_unreferenced io _ _ _ _ _ _ _ Hall H).
Qed.

(** An image the page does not show, and one without content. *)
Lemma saveAndProcessImages_unreferenced_witness :
  exists s',
    Images.saveAndProcessImages (Disk.io true false) Disk.page
      (Some [Disk.photo; Disk.blank]) Disk.empty = (Ok Disk.page, s')
    /\ Disk.page = Disk.page.
Proof.
  assert (Images.saveAndProcessImages (Disk.io true false) Disk.page
            (Some [Disk.photo; Disk.blank]) Disk.empty
          = (Ok Disk.page,
             snd (Images.saveAndProcessImages (Disk.io true false) Disk.page
                    (Some [Disk.photo; Disk.blank]) Disk.empty))) as Hrun
    by (vm_compute; reflexivity).
  eexists. split; [exact Hrun|].
  refine (saveAndProcessImages_unreferenced (Disk.io true false) Disk.page
            (Some [Disk.photo; Disk.blank]) Disk.empty _ Disk.page _ Hrun).
  constructor; [right; right; vm_compute; reflexivity|].
  constructor; [left; reflexivity | constructor].
Defined.

(** ** The template store *)

(** X17. [generateEmailContent] and its store.  Without a template id,
    or with the empty string, the store is not asked and the subject and
    the body of the request come back.  With an id the list of templates
    is read first, also for the id [default], which does not use it: when
    that read throws, the function throws.  An id found in the list gives
    the subject and the body of the first template of that id, both
    rendered with the data of the request, and the subject and the body
    of the request are dropped. *)
Theorem generateEmailContent_store {W} (env : Env W) (tid : option string)
    (td : option TemplateData) (subj b : string) (s : State W) :
  (JS.as_truthy tid = None ->
   generateEmailContent env tid td subj b s = (Ok (subj, b), s))
  /\ (forall i e w1,
         JS.as_truthy tid = Some i ->
         getEmailTemplates env (world s) = (inl e, w1) ->
         generateEmailContent env tid td subj b s
         = (Throw e, mkState w1 (trace s)))
  /\ (forall i templates w1 t,
         JS.as_truthy tid = Some i -> i <> "default" ->
         getEmailTemplates env (world s) = (inr templates, w1) ->
         JS.find (fun t => String.eqb (tpl_id t) i) templates = Some t ->
         generateEmailContent env tid td subj b s
         = (Ok (processTemplate (tpl_subject t) (default ∅ td),
                processTemplate (tpl_body t) (default ∅ td)),
            mkState w1 (trace s))).
Proof.
  unfold generateEmailContent. repeat split.
  - intros ->. reflexivity.
  - intros i e w1 -> H. unfold bind, call. rewrite H. reflexivity.
  - intros i templates w1 t -> Hi H Hf. unfold bind, call. rewrite H.
    apply String.eqb_neq in Hi. rewrite Hi. unfold ret. rewrite Hf.
    reflexivity.
Qed.

(** The default template with a list of templates that cannot be read,
    and a template found by its id. *)
Lemma generateEmailContent_store_witness :
  generateEmailContent
    (with_templates Sample.healthy templates_down
       (getDefaultEmailTemplate Sample.healthy))
    (Some "default") None "S" "B" Sample.start
  = (Throw (JsError "Error" "template store unavailable"),
     mkState 0%nat (trace Sample.start))
  /\ generateEmailContent Sample.healthy (Some "welcome")
       (Some (<["name" := JStr "Ann"]> ∅)) "S" "B" Sample.start
     = (Ok (processTemplate (tpl_subject Sample.welcome)
              (default ∅ (Some (<["name" := JStr "Ann"]> ∅))),
            processTemplate (tpl_body Sample.welcome)
              (default ∅ (Some (<["name" := JStr "Ann"]> ∅)))),
        mkState 0%nat (trace Sample.start)).
Proof.
  split.
  - apply (proj1 (proj2 (generateEmailContent_store
                           (with_templates Sample.healthy templates_down
                              (getDefaultEmailTemplate Sample.healthy))
                           (Some "default") None "S" "B" Sample.start))
             "default"); reflexivity.
  - apply (proj2 (proj2 (generateEmailContent_store Sample.healthy
                           (Some "welcome")
                           (Some (<["name" := JStr "Ann"]> ∅)) "S" "B"
                           Sample.start))
             "welcome" [Sample.welcome]); [reflexivity|discriminate|..];
      reflexivity.
Defined.

Section TemplateStoreFacts.
Context {W : Type} (env : Env W).
Variable templates : Answer W (list EmailTemplate).
Variable default_template : Answer W (option EmailTemplate).

Lemma compose_mail_without_template data t cfg :
  JS.as_truthy (templateId data) = None ->
  compose_mail (with_templates env templates default_template) data t cfg
  = compose_mail env data t cfg.
Proof.
  intros H. unfold compose_mail, generateEmailContent. rewrite H. reflexivity.
Qed.

Lemma sendEmail_prepare_without_template data id (s : State W) :
  JS.as_truthy (templateId data) = None ->
  sendEmail_prepare (with_templates env templates default_template) data id s
  = sendEmail_prepare env data id s.
Proof.
  intros H. unfold sendEmail_prepare, bind.
  change (createTransport (with_templates env templates default_template))
    with (createTransport env).
  change (resolve_smtpConfig (with_templates env templates default_template))
    with (resolve_smtpConfig env).
  destruct (createTransport env id (smtpConfig data) s) as [[t|e|] s0];
    try reflexivity.
  destruct (resolve_smtpConfig env data id s0) as [[[early|[cfg|]]|e|] s1];
    try reflexivity.
  rewrite (compose_mail_without_template data t cfg H). reflexivity.
Qed.

Lemma sendEmail_without_template data id (s : State W) :
  JS.as_truthy (templateId data) = None ->
  sendEmail (with_templates env templates default_template) data id s
  = sendEmail env data id s.
Proof.
  intros H. unfold sendEmail, try_catch, sendEmail_try, bind.
  rewrite (sendEmail_prepare_without_template data id s H). reflexivity.
Qed.
End TemplateStoreFacts.

(** X18. A send without a template does not depend on the template
    store.  When the request names no template, [sendEmail] and the send
    to one recipient inside a bulk batch run the same with any other
    store of templates in place, also with one that cannot be read: same
    result, same deliveries, same log entries. *)
Theorem sendEmail_without_template_ignores_store {W} (env : Env W)
    (templates : Answer W (list EmailTemplate))
    (default_template : Answer W (option EmailTemplate))
    (data : EmailData) (id : option string) (s : State W) :
  JS.as_truthy (templateId data) = None ->
  sendEmail (with_templates env templates default_template) data id s
  = sendEmail env data id s
  /\ forall bulk recipient tally,
       bulk_templateId bulk = templateId data ->
       bulk_send_one (with_templates env templates default_template) bulk id
         tally recipient s
       = bulk_send_one env bulk id tally recipient s.
Proof.
  intros H. split; [apply sendEmail_without_template; exact H|].
  intros bulk recipient tally Hb. rewrite !bulk_send_one_outcome.
  rewrite sendEmail_without_template; [reflexivity|].
  cbn [bulk_emailData templateId]. rewrite Hb. exact H.
Qed.

(** A delivery while the template store cannot be read. *)
Lemma sendEmail_without_template_witness :
  sendEmail
    (with_templates Sample.healthy templates_down
       (getDefaultEmailTemplate Sample.healthy))
    (Sample.request (One Sample.ann) None) None Sample.start
  = sendEmail Sample.healthy (Sample.request (One Sample.ann) None) None
      Sample.start
  /\ forall bulk recipient tally,
       bulk_templateId bulk
       = templateId (Sample.request (One Sample.ann) None) ->
       bulk_send_one
         (with_templates Sample.healthy templates_down
            (getDefaultEmailTemplate Sample.healthy)) bulk None tally recipient
         Sample.start
       = bulk_send_one Sample.healthy bulk None tally recipient Sample.start.
Proof.
  apply (sendEmail_without_template_ignores_store Sample.healthy
           templates_down (getDefaultEmailTemplate Sample.healthy)
           (Sample.request (One Sample.ann) None) None Sample.start).
  reflexivity.
Defined.

(** ** The headers of the message *)

(** X19. The sender and the copies of a prepared message.  A sender in
    the request is written the way [formatRecipient] writes a recipient,
    display name in quotes and address in angle brackets, or the bare
    address; without one the sender is the user of the configuration.
    The [cc] and [bcc] lists of the request are formatted as arrays, an
    empty list too, and are absent when the request has none. *)
Theorem sendEmail_sender_header {W} (env : Env W) (data : EmailData)
    (id : option string) (s s1 : State W) (p : Prepared) :
  sendEmail_prepare env data id s = (Ok (inr p), s1) ->
  (forall f, from data = Some f ->
             mail_from (p_mailOptions p) = formatRecipient f)
  /\ (from data = None ->
      mail_from (p_mailOptions p) = any_user (p_smtpConfig p))
  /\ mail_cc (p_mailOptions p)
     = option_map (fun l => Many (map formatRecipient l)) (cc data)
  /\ mail_bcc (p_mailOptions p)
     = option_map (fun l => Many (map formatRecipient l)) (bcc data).
Proof.
  unfold sendEmail_prepare. intros H.
  bind_inv H t s0. bind_inv H r s2.
  destruct r as [r|[cfg|]]; try discriminate.
  bind_inv H q s3. unfold compose_mail in Eq.
  bind_inv Eq ct s4. bind_inv Eq bd s5.
  injection Eq as <- _. injection H as <- _.
  cbn [p_mailOptions p_smtpConfig mail_from mail_cc mail_bcc].
  repeat split.
  - intros f ->. unfold formatRecipient, JS.as_truthy.
    destruct (name f) as [n|]; [|reflexivity].
    destruct (JS.truthy n); reflexivity.
  - intros ->. reflexivity.
Qed.

(** A sender with a display name. *)
Lemma sendEmail_sender_header_witness :
  (forall f,
      from (mkEmailData (One Sample.bob) "S" "B" (Some Sample.ann) (Some [])
              None None None None None) = Some f ->
      mail_from
        (p_mailOptions
           (mkPrepared (nodemailer_createTransport (Stored Sample.office))
              (Stored Sample.office) "S"
              (mkMailOptions (quoted_address "Ann" "ann@x.com")
                 (One "bob@x.com") "S" "B" (Some (Many [])) None)))
      = formatRecipient f)
  /\ (from (mkEmailData (One Sample.bob) "S" "B" (Some Sample.ann) (Some [])
              None None None None None) = None ->
      mail_from
        (p_mailOptions
           (mkPrepared (nodemailer_createTransport (Stored Sample.office))
              (Stored Sample.office) "S"
              (mkMailOptions (quoted_address "Ann" "ann@x.com")
                 (One "bob@x.com") "S" "B" (Some (Many [])) None)))
      = any_user
          (p_smtpConfig
             (mkPrepared (nodemailer_createTransport (Stored Sample.office))
                (Stored Sample.office) "S"
                (mkMailOptions (quoted_address "Ann" "ann@x.com")
                   (One "bob@x.com") "S" "B" (Some (Many [])) None))))
  /\ mail_cc
       (p_mailOptions
          (mkPrepared (nodemailer_createTransport (Stored Sample.office))
             (Stored Sample.office) "S"
             (mkMailOptions (quoted_address "Ann" "ann@x.com")
                (One "bob@x.com") "S" "B" (Some (Many [])) None)))
     = option_map (fun l => Many (map formatRecipient l))
         (cc (mkEmailData (One Sample.bob) "S" "B" (Some Sample.ann) (Some [])
                None None None None None))
  /\ mail_bcc
       (p_mailOptions
          (mkPrepared (nodemailer_createTransport (Stored Sample.office))
             (Stored Sample.office) "S"
             (mkMailOptions (quoted_address "Ann" "ann@x.com")
                (One "bob@x.com") "S" "B" (Some (Many [])) None)))
     = option_map (fun l => Many (map formatRecipient l))
         (bcc (mkEmailData (One Sample.bob) "S" "B" (Some Sample.ann)
                 (Some []) None None None None None)).
Proof.
  apply (sendEmail_sender_header Sample.healthy
           (mkEmailData (One Sample.bob) "S" "B" (Some Sample.ann) (Some [])
              None None None None None) None Sample.start
           (snd (sendEmail_prepare Sample.healthy
                   (mkEmailData (One Sample.bob) "S" "B" (Some Sample.ann)
                      (Some []) None None None None None) None
                   Sample.start))).
  vm_compute. reflexivity.
Defined.
